(** * Percentile reporter: [scripts/p95_p99_parser.py]

    A shallow embedding of the script and of the Python built-ins it calls,
    followed by the properties of its three functions ([parse_latencies],
    [percentile], the [__main__] block).

    Python floats are IEEE-754 binary64 values; they are modelled with the
    Standard Library's [spec_float] at precision 53 and [emax = 1024], so
    that [len(data) * p], [int(...)], [float(str)] and the comparison used
    by [list.sort] are the operations the interpreter performs, roundings
    included. *)

From Stdlib Require Import ZArith List String Ascii Bool Lia.
From Stdlib Require Import Permutation Sorted SpecFloat DecimalString.
Import ListNotations.
Local Open Scope Z_scope.

(** ** Exceptions and results *)

Inductive exn : Type :=
| ValueError
| IndexError
| OverflowError
| OSError
| SystemExit (code : Z).

Inductive result (A : Type) : Type :=
| Ok (v : A)
| Raise (e : exn).
Arguments Ok {A} v.
Arguments Raise {A} e.

(** A computation over a mutable object or stream of type [St] that either
    returns a value or raises; the state is kept when it raises, as a list
    sorted in place stays sorted and printed lines stay printed. *)
Definition M (St A : Type) : Type := St -> result A * St.

Definition ret {St A} (v : A) : M St A := fun s => (Ok v, s).
Definition raise {St A} (e : exn) : M St A := fun s => (Raise e, s).
Definition bind {St A B} (c : M St A) (k : A -> M St B) : M St B :=
  fun s => match c s with
           | (Ok v, s') => k v s'
           | (Raise e, s') => (Raise e, s')
           end.
Definition lift {St A} (r : result A) : M St A := fun s => (r, s).
Definition gets {St A} (f : St -> A) : M St A := fun s => (Ok (f s), s).
Definition modify {St} (f : St -> St) : M St unit := fun s => (Ok tt, f s).

Declare Scope py_scope.
Delimit Scope py_scope with py.
Notation "x <- c ;; k" := (bind c (fun x => k))
  (at level 61, c at next level, right associativity) : py_scope.
Notation "c ;; k" := (bind c (fun _ => k))
  (at level 61, right associativity) : py_scope.

(** ** binary64 *)

Definition prec : Z := 53.
Definition emax : Z := 1024.
Abbreviation float := spec_float.

(** [sys.maxsize] on a 64-bit build: no list is longer. *)
Definition sys_maxsize : Z := 2 ^ 63 - 1.

Definition float_mul (x y : float) : float := SFmul prec emax x y.
Definition float_lt (x y : float) : bool := SFltb x y.
Definition float_le (x y : float) : bool := SFleb x y.
Definition float_eq (x y : float) : bool := SFeqb x y.
Definition is_nan (x : float) : bool :=
  match x with S754_nan => true | _ => false end.

(** Least exponent a value of magnitude [2^e] can carry. *)
Abbreviation fexp := (SpecFloat.fexp prec emax).

(** The binary64 values proper: canonical mantissa and exponent. *)
Definition is_binary64 (x : float) : bool := valid_binary prec emax x.

(** [int -> float] as done for the left operand of [len(data) * p]:
    round to nearest even, [OverflowError] beyond the largest float. *)
Definition float_of_int (n : Z) : result float :=
  match binary_normalize prec emax n 0 false with
  | S754_infinity _ => Raise OverflowError
  | x => Ok x
  end.

(** [int(x)] on a float: truncation towards zero. *)
Definition int_of_float (x : float) : result Z :=
  match x with
  | S754_nan => Raise ValueError
  | S754_infinity _ => Raise OverflowError
  | S754_zero _ => Ok 0
  | S754_finite s m e => Ok (cond_Zopp s (Z.shiftl (Zpos m) e))
  end.

(** The mathematical floor of a finite float, [None] on NaN and infinities. *)
Definition float_floor (x : float) : option Z :=
  match x with
  | S754_zero _ => Some 0
  | S754_finite s m e => Some (Z.shiftl (cond_Zopp s (Zpos m)) e)
  | _ => None
  end.

(** [int * float]: the integer is converted first. *)
Definition int_mul_float (n : Z) (p : float) : result float :=
  match float_of_int n with
  | Ok x => Ok (float_mul x p)
  | Raise e => Raise e
  end.

(** A fraction in [0, 1): a binary64 value [p] with [0 <= p < 1]. *)
Definition float_zero : float := S754_zero false.
Definition float_one : float := Eval vm_compute in SFone prec emax.
Definition is_fraction (p : float) : bool :=
  is_binary64 p && float_le float_zero p && float_lt p float_one.

(** ** Lists *)

Definition len {A} (l : list A) : Z := Z.of_nat (List.length l).

(** [l[i]], negative indices counting from the end. *)
Definition getitem {A} (l : list A) (i : Z) : result A :=
  let j := if i <? 0 then i + len l else i in
  if (j <? 0) || (len l <=? j) then Raise IndexError
  else match nth_error l (Z.to_nat j) with
       | Some v => Ok v
       | None => Raise IndexError
       end.

(** [list.sort()] on floats.  The built-in is a stable comparison sort that
    only ever asks [y < x]; on a list without NaN, where [<] is a strict weak
    order, every such sort yields the same list, the one computed here by
    stable insertion.  (With NaN among the items the built-in's result
    depends on its merge strategy and is not modelled: what is stated below
    of the sorted list itself is stated for lists of numbers.) *)
Fixpoint insort (x : float) (l : list float) : list float :=
  match l with
  | [] => [x]
  | y :: r => if float_lt y x then y :: insort x r else x :: y :: r
  end.

Fixpoint list_sort (l : list float) : list float :=
  match l with
  | [] => []
  | x :: r => insort x (list_sort r)
  end.

(** ** [percentile(data, p)]

    [data] is passed by reference and sorted in place: the state of the
    computation is the list object. *)
Definition percentile (p : float) : M (list float) float :=
  (modify list_sort ;;
   n <- gets len ;;
   x <- lift (int_mul_float n p) ;;
   k <- lift (int_of_float x) ;;
   n' <- gets len ;;
   data <- gets (fun d => d) ;;
   lift (getitem data (Z.min k (n' - 1))))%py.

(** ** Text

    A [str] is modelled by [string]; its characters are the code points
    0..255, which covers every character [float()] accepts apart from the
    non-ASCII decimal digits. *)

Local Open Scope string_scope.
Local Open Scope list_scope.
Local Open Scope Z_scope.

Definition ord (c : ascii) : Z := Z.of_N (N_of_ascii c).

(** [str.isspace] on one character. *)
Definition isspace (c : ascii) : bool :=
  let n := ord c in
  ((9 <=? n) && (n <=? 13)) || ((28 <=? n) && (n <=? 32))
  || (n =? 133) || (n =? 160).

Definition isdigit (c : ascii) : bool :=
  let n := ord c in (48 <=? n) && (n <=? 57).

Definition digit_value (c : ascii) : Z := ord c - 48.

(** ASCII lower-casing, for the case-insensitive [inf] and [nan]. *)
Definition lower (c : ascii) : ascii :=
  let n := ord c in
  if (65 <=? n) && (n <=? 90) then ascii_of_N (Z.to_N (n + 32)) else c.

Fixpoint lower_str (s : string) : string :=
  match s with
  | EmptyString => EmptyString
  | String c r => String (lower c) (lower_str r)
  end.

Fixpoint lstrip (s : string) : string :=
  match s with
  | EmptyString => EmptyString
  | String c r => if isspace c then lstrip r else s
  end.

Fixpoint rstrip (s : string) : string :=
  match s with
  | EmptyString => EmptyString
  | String c r =>
      match rstrip r with
      | EmptyString => if isspace c then EmptyString else String c EmptyString
      | r' => String c r'
      end
  end.

(** [str.strip()]. *)
Definition strip (s : string) : string := rstrip (lstrip s).

Definition LF : ascii := ascii_of_N 10.
Definition CR : ascii := ascii_of_N 13.

(** The lines a text file yields when iterated in the default
    universal-newlines mode: each of ["\n"], ["\r"], ["\r\n"] ends a line
    and is handed over as ["\n"]; a last line without terminator is kept. *)
Fixpoint readlines (s : string) : list string :=
  match s with
  | EmptyString => []
  | String c r =>
      if Ascii.eqb c LF then String LF EmptyString :: readlines r
      else if Ascii.eqb c CR then
        match r with
        | String c' r' =>
            if Ascii.eqb c' LF then String LF EmptyString :: readlines r'
            else String LF EmptyString :: readlines r
        | EmptyString => [String LF EmptyString]
        end
      else
        match readlines r with
        | [] => [String c EmptyString]
        | l :: ls => String c l :: ls
        end
  end.

(** ** [float(str)] *)

(** The whitespace [float()] itself trims: the ASCII blanks, and the
    non-ASCII spaces it first rewrites to a blank. *)
Definition float_isspace (c : ascii) : bool :=
  let n := ord c in
  ((9 <=? n) && (n <=? 13)) || (n =? 32) || (n =? 133) || (n =? 160).

Fixpoint float_lstrip (s : string) : string :=
  match s with
  | EmptyString => EmptyString
  | String c r => if float_isspace c then float_lstrip r else s
  end.

Fixpoint float_rstrip (s : string) : string :=
  match s with
  | EmptyString => EmptyString
  | String c r =>
      match float_rstrip r with
      | EmptyString =>
          if float_isspace c then EmptyString else String c EmptyString
      | r' => String c r'
      end
  end.

Definition is_underscore (c : ascii) : bool := ord c =? 95.

(** Digit-group underscores: one is accepted only right after a digit and
    right before a digit; accepted ones are dropped. *)
Fixpoint drop_underscores (prev : option ascii) (s : string) : option string :=
  match s with
  | EmptyString =>
      match prev with
      | Some c => if is_underscore c then None else Some EmptyString
      | None => Some EmptyString
      end
  | String c r =>
      if is_underscore c then
        match prev with
        | Some c' => if isdigit c' then drop_underscores (Some c) r else None
        | None => None
        end
      else
        match prev with
        | Some c' =>
            if is_underscore c' && negb (isdigit c) then None
            else option_map (String c) (drop_underscores (Some c) r)
        | None => option_map (String c) (drop_underscores (Some c) r)
        end
  end.

Definition read_sign (s : string) : bool * string :=
  match s with
  | String c r =>
      if ord c =? 45 then (true, r)
      else if ord c =? 43 then (false, r)
      else (false, s)
  | EmptyString => (false, s)
  end.

(** Reads a maximal run of digits: its value appended to [acc], the number
    of digits read added to [cnt], and the rest of the string. *)
Fixpoint read_digits (s : string) (acc cnt : Z) : Z * Z * string :=
  match s with
  | String c r =>
      if isdigit c then read_digits r (10 * acc + digit_value c) (cnt + 1)
      else (acc, cnt, s)
  | EmptyString => (acc, cnt, s)
  end.

(** The binary64 value nearest to [(-1)^s * m * 10^e], ties to even;
    an infinity when that is beyond the largest float. *)
Definition float_of_decimal (s : bool) (m e : Z) : float :=
  match m with
  | Z0 => S754_zero s
  | Zpos pm =>
      if 0 <=? e then binary_round prec emax s (Z.to_pos (m * 10 ^ e)) 0
      else
        let '(q, e', l) := SFdiv_core_binary prec emax m 0 (10 ^ (- e)) 0 in
        binary_round_aux prec emax s q e' l
  | Zneg _ => S754_nan
  end.

(** [digits [. digits] [(e|E) [sign] digits]] with a digit somewhere in the
    mantissa, up to the end of the string. *)
Definition parse_decimal (s : bool) (str : string) : option float :=
  let '(m1, n1, r1) := read_digits str 0 0 in
  let '(m2, n2, r2) :=
    match r1 with
    | String c r => if ord c =? 46 then read_digits r m1 0 else (m1, 0, r1)
    | EmptyString => (m1, 0, r1)
    end in
  if n1 + n2 =? 0 then None
  else
    match r2 with
    | EmptyString => Some (float_of_decimal s m2 (- n2))
    | String c r =>
        if (ord c =? 101) || (ord c =? 69) then
          let '(se, r3) := read_sign r in
          match read_digits r3 0 0 with
          | (x, nx, EmptyString) =>
              if nx =? 0 then None
              else Some (float_of_decimal s m2 (cond_Zopp se x - n2))
          | _ => None
          end
        else None
    end.

Definition parse_float (str : string) : option float :=
  let '(s, r) := read_sign str in
  let w := lower_str r in
  if String.eqb w "inf" || String.eqb w "infinity" then Some (S754_infinity s)
  else if String.eqb w "nan" then Some S754_nan
  else parse_decimal s r.

(** [float(s)] for a [str] argument. *)
Definition float_of_str (s : string) : result float :=
  match drop_underscores None (float_rstrip (float_lstrip s)) with
  | None => Raise ValueError
  | Some t =>
      match parse_float t with
      | Some x => Ok x
      | None => Raise ValueError
      end
  end.

(** ** [repr(float)], which is also what an f-string field prints *)

Definition str_of_nat_Z (n : Z) : string :=
  NilZero.string_of_uint (N.to_uint (Z.to_N n)).

Definition str_len (s : string) : Z := Z.of_nat (String.length s).

Definition same_float (x y : float) : bool :=
  match x, y with
  | S754_zero a, S754_zero b => Bool.eqb a b
  | S754_infinity a, S754_infinity b => Bool.eqb a b
  | S754_nan, S754_nan => true
  | S754_finite a m e, S754_finite b m' e' =>
      Bool.eqb a b && Pos.eqb m m' && Z.eqb e e'
  | _, _ => false
  end.

(** For [0 < num < den]: the least [j >= 1] with [num * 10^j >= den]. *)
Fixpoint first_digit_pos (fuel : nat) (num den j : Z) : Z :=
  match fuel with
  | O => j
  | S f => if den <=? num * 10 ^ j then j
           else first_digit_pos f num den (j + 1)
  end.

(** The [k] with [10^(k-1) <= num/den < 10^k]. *)
Definition decimal_point (num den : Z) : Z :=
  if den <=? num then str_len (str_of_nat_Z (num / den))
  else 1 - first_digit_pos 400 num den 1.

(** The shortest decimal [c * 10^q] that [float()] reads back as [x], the
    nearest to [x = num/den] among those of that length; tried with [nd],
    [nd + 1], ... significant digits. *)
Fixpoint shortest_decimal (fuel : nat) (x : float) (num den k nd : Z)
  : Z * Z :=
  let q := k - nd in
  let a := if q <=? 0 then num * 10 ^ (- q) else num in
  let b := if q <=? 0 then den else den * 10 ^ q in
  let lo := a / b in
  let hi := lo + 1 in
  let nearest :=
    match 2 * a ?= (2 * lo + 1) * b with
    | Lt => lo
    | Gt => hi
    | Eq => if Z.even lo then lo else hi
    end in
  let ok_lo := same_float (float_of_decimal false lo q) x in
  let ok_hi := same_float (float_of_decimal false hi q) x in
  match fuel with
  | O => (nearest, q)
  | S f =>
      if ok_lo && ok_hi then (nearest, q)
      else if ok_lo then (lo, q)
      else if ok_hi then (hi, q)
      else shortest_decimal f x num den k (nd + 1)
  end.

Fixpoint rstrip_zeros (s : string) : string :=
  match s with
  | EmptyString => EmptyString
  | String c r =>
      match rstrip_zeros r with
      | EmptyString => if ord c =? 48 then EmptyString else String c EmptyString
      | r' => String c r'
      end
  end.

Fixpoint zeros (n : nat) : string :=
  match n with
  | O => EmptyString
  | S n' => String "0" (zeros n')
  end.

(** Lays out the digits [ds] with the decimal point after [decpt] of them:
    exponent notation when [decpt <= -4] or [decpt > 16], else positional
    with [.0] appended to an integer. *)
Definition format_repr (ds : string) (decpt : Z) : string :=
  if (decpt <=? -4) || (16 <? decpt) then
    let ex := decpt - 1 in
    let mant :=
      match ds with
      | String c EmptyString => ds
      | String c r => String c (String "." r)
      | EmptyString => ds
      end in
    let xs := str_of_nat_Z (Z.abs ex) in
    let xs := if str_len xs <? 2 then String "0" xs else xs in
    let sg := if ex <? 0 then "-" else "+" in
    (mant ++ "e" ++ sg ++ xs)%string
  else if decpt <=? 0 then
    ("0." ++ zeros (Z.to_nat (- decpt)) ++ ds)%string
  else if decpt <? str_len ds then
    let i := Z.to_nat decpt in
    let j := Nat.sub (String.length ds) i in
    (substring 0 i ds ++ "." ++ substring i j ds)%string
  else
    (ds ++ zeros (Z.to_nat (decpt - str_len ds)) ++ ".0")%string.

Definition float_repr (x : float) : string :=
  match x with
  | S754_nan => "nan"
  | S754_infinity s => if s then "-inf" else "inf"
  | S754_zero s => if s then "-0.0" else "0.0"
  | S754_finite s m e =>
      let num := if 0 <=? e then Zpos m * 2 ^ e else Zpos m in
      let den := if 0 <=? e then 1 else 2 ^ (- e) in
      let '(c, q) :=
        shortest_decimal 16 (S754_finite false m e) num den
                         (decimal_point num den) 1 in
      let cs := str_of_nat_Z c in
      let body := format_repr (rstrip_zeros cs) (str_len cs + q) in
      if s then String "-" body else body
  end.

(** ** [parse_latencies(file_path)] *)

(** The readable text files: path to decoded content; [None] when [open]
    fails.  A file that opens but whose bytes do not decode is not
    represented: the error its reading raises is outside this model. *)
Definition filesystem : Type := string -> option string.

Definition append (v : float) : M (list float) unit :=
  modify (fun latencies => latencies ++ [v]).

(** [try: c  except ValueError: continue] inside the loop body. *)
Definition except_ValueError_continue {St} (c : M St unit) : M St unit :=
  fun s => match c s with
           | (Raise ValueError, s') => (Ok tt, s')
           | r => r
           end.

(** The [for line in f] loop over the list [latencies]. *)
Fixpoint for_each_line (lines : list string) : M (list float) unit :=
  match lines with
  | [] => ret tt
  | line :: rest =>
      (except_ValueError_continue
         (v <- lift (float_of_str (strip line)) ;; append v) ;;
       for_each_line rest)%py
  end.

Definition parse_lines (lines : list string) : result (list float) :=
  match for_each_line lines [] with
  | (Ok _, latencies) => Ok latencies
  | (Raise e, _) => Raise e
  end.

Definition parse_latencies (fs : filesystem) (file_path : string)
  : result (list float) :=
  match fs file_path with
  | None => Raise OSError
  | Some text => parse_lines (readlines text)
  end.

(** ** The [__main__] block *)

(** What a run can change: the lines written to standard output and the
    list object bound to [data]. *)
Record world : Type := World { stdout : list string; data : list float }.

Definition print (line : string) : M world unit :=
  modify (fun w => World (stdout w ++ [line]) (data w)).

Definition bind_data (l : list float) : M world unit :=
  modify (fun w => World (stdout w) l).

(** Runs a computation on the list object bound to [data]. *)
Definition on_data {A} (c : M (list float) A) : M world A :=
  fun w => let '(r, d) := c (data w) in (r, World (stdout w) d).

Definition usage : string := "Usage: p95_p99_parser.py latency.txt".

(** The literals [0.50], [0.95], [0.99]. *)
Definition p50 : float := Eval vm_compute in float_of_decimal false 50 (-2).
Definition p95 : float := Eval vm_compute in float_of_decimal false 95 (-2).
Definition p99 : float := Eval vm_compute in float_of_decimal false 99 (-2).

Definition report_line (label : string) (v : float) : string :=
  (label ++ ": " ++ float_repr v ++ " ms")%string.

Definition main (argv : list string) (fs : filesystem) : M world unit :=
  if negb (len argv =? 2) then
    (print usage ;;
     raise (SystemExit 1))%py
  else
    (latencies <- lift (parse_latencies fs (nth 1 argv EmptyString)) ;;
     bind_data latencies ;;
     v50 <- on_data (percentile p50) ;;
     print (report_line "P50" v50) ;;
     v95 <- on_data (percentile p95) ;;
     print (report_line "P95" v95) ;;
     v99 <- on_data (percentile p99) ;;
     print (report_line "P99" v99))%py.

(** Exit status of the interpreter: 0 on normal completion, the code of
    [sys.exit], 1 after an uncaught exception. *)
Definition exit_status (r : result unit) : Z :=
  match r with
  | Ok _ => 0
  | Raise (SystemExit c) => c
  | Raise _ => 1
  end.

Record outcome : Type := Outcome { printed : list string; status : Z }.

Definition run (argv : list string) (fs : filesystem) : outcome :=
  let '(r, w) := main argv fs (World [] []) in
  Outcome (stdout w) (exit_status r).

(** ** Vocabulary of the specification *)

(** The selected index [min(floor(n * p), n - 1)], where [n * p] is the
    product of the sample count and the fraction as the language computes
    it. *)
Definition nearest_rank (n : Z) (p : float) : option Z :=
  match int_mul_float n p with
  | Ok x => option_map (fun k => Z.min k (n - 1)) (float_floor x)
  | Raise _ => None
  end.

(** Ascending order, [x <= y] for every [x] placed before [y]. *)
Definition ascending (l : list float) : Prop :=
  StronglySorted (fun x y => float_le x y = true) l.

(** A sequence of numbers: no item is NaN. *)
Definition numbers (l : list float) : Prop :=
  Forall (fun x => is_nan x = false) l.

(** A line is syntactically valid when, trimmed, it reads as a number. *)
Definition valid_line (line : string) : bool :=
  match float_of_str (strip line) with
  | Ok _ => true
  | Raise _ => false
  end.

Definition line_value (line : string) : float :=
  match float_of_str (strip line) with
  | Ok v => v
  | Raise _ => S754_nan
  end.

(** The values of the valid lines, in file order. *)
Definition valid_values (lines : list string) : list float :=
  map line_value (filter valid_line lines).

(** [s] begins with [pre]. *)
Fixpoint startswith (pre s : string) : bool :=
  match pre with
  | EmptyString => true
  | String a pre' =>
      match s with
      | String b s' => Ascii.eqb a b && startswith pre' s'
      | EmptyString => false
      end
  end.

(** One of the three report lines, recognised by its label. *)
Definition is_percentile_line (s : string) : bool :=
  startswith "P50: " s || startswith "P95: " s || startswith "P99: " s.

(** A float that is [+0.0] or positive and finite, its mantissa of at most
    [D] bits and its exponent at most [E]. *)
Definition nonneg_within (D E : Z) (x : float) : Prop :=
  x = S754_zero false
  \/ exists m e, x = S754_finite false m e
                 /\ Zpos (digits2_pos m) <= D /\ e <= E.

(** What a sort that only asks [y < x] leaves behind whatever the items:
    no item is smaller than the one just before it. *)
Definition no_descent (l : list float) : Prop :=
  Sorted (fun x y => float_lt y x = false) l.

(** A latency of [n] milliseconds, an integer below [2^53]. *)
Definition ms (n : Z) : float := float_of_decimal false n 0.

(** How many items of [l] are at most [x]. *)
Definition count_le (x : float) (l : list float) : nat :=
  List.length (filter (fun y => float_le y x) l).

(** Text of a file from its lines, each ended by a newline. *)
Fixpoint text_of_lines (lines : list string) : string :=
  match lines with
  | [] => EmptyString
  | l :: r => (l ++ String LF (text_of_lines r))%string
  end.

(** A file system holding one readable file. *)
Definition single_file (path text : string) : filesystem :=
  fun q => if String.eqb q path then Some text else None.

Definition pos_zero : float := S754_zero false.
Definition neg_zero : float := S754_zero true.

(** Sample inputs. *)
Definition five_lines : list string := ["10"; "20"; "30"; "40"; "50"].
Definition mixed_lines : list string :=
  ["12.5"; "abc"; "  7 "; ""; "12,5"; "1e3"].
Definition five_line_file : filesystem :=
  single_file "latency.txt" (text_of_lines five_lines).
Definition mixed_file : filesystem :=
  single_file "latency.txt" (text_of_lines mixed_lines).
Definition script_name : string := "p95_p99_parser.py".

Definition zeros_file (first second : string) : filesystem :=
  single_file "latency.txt" (text_of_lines [first; second]).

(** ** Rounding, stated on integers

    [m / 2^k] rounded to the nearest integer, ties to the even one. *)
Definition round_half_even (m k : Z) : Z :=
  let q := m / 2 ^ k in
  match 2 * (m mod 2 ^ k) ?= 2 ^ k with
  | Lt => q
  | Gt => q + 1
  | Eq => if Z.even q then q else q + 1
  end.

(** By how many bits the mantissa of [m * 2^e] is too long for a
    binary64. *)
Definition shift_of (m e : Z) : Z := Z.max 0 (fexp (Zdigits2 m + e) - e).

(** The integer part of [m * 2^e] once rounded to binary64. *)
Definition rounded_int (m e : Z) : Z :=
  Z.shiftl (round_half_even m (shift_of m e)) (e + shift_of m e).

(** Where [rho / b] lies in [0, 1): at 0, below, at or above one half. *)
Definition location_of (rho b : Z) : location :=
  if rho =? 0 then loc_Exact else loc_Inexact (2 * rho ?= b).

(** The shift record [r] stands for [N / 2^j]: quotient and position of
    the remainder. *)
Definition represents (r : shr_record) (N j : Z) : Prop :=
  shr_m r = N / 2 ^ j
  /\ loc_of_shr_record r = location_of (N mod 2 ^ j) (2 ^ j).

(** The rank [int(n * p)] computes for the fraction [mp * 2^ep]: the count
    [n] is rounded to binary64 first, the product then, and the integer
    part is taken. *)
Definition rank_of (n mp ep : Z) : Z :=
  rounded_int (round_half_even n (shift_of n 0) * mp) (shift_of n 0 + ep).

(** Every character of [s] is white space. *)
Fixpoint all_space (s : string) : bool :=
  match s with
  | EmptyString => true
  | String c r => isspace c && all_space r
  end.

(** [l'] is [l] with white space added in front and behind. *)
Definition padded (l l' : string) : Prop :=
  exists a b, all_space a = true /\ all_space b = true
              /\ l' = (a ++ l ++ b)%string.

(** [l] holds no carriage return and no line feed. *)
Fixpoint plain (l : string) : bool :=
  match l with
  | EmptyString => true
  | String c r => negb (Ascii.eqb c LF) && negb (Ascii.eqb c CR) && plain r
  end.

(** The three line terminators: LF, CR LF, CR. *)
Definition eol_lf : string := String LF EmptyString.
Definition eol_crlf : string := String CR (String LF EmptyString).
Definition eol_cr : string := String CR EmptyString.
Definition is_eol (eol : string) : bool :=
  String.eqb eol eol_lf || String.eqb eol eol_crlf || String.eqb eol eol_cr.

(** The text made of [lines], each ended by [eol], and of [last], which
    has no terminator (and may be empty). *)
Fixpoint text_with (eol : string) (lines : list string) (last : string)
  : string :=
  match lines with
  | [] => last
  | l :: r => (l ++ eol ++ text_with eol r last)%string
  end.

Definition starts_with_LF (s : string) : bool :=
  match s with
  | String c _ => Ascii.eqb c LF
  | EmptyString => false
  end.

(** * Properties *)

(** ** Size of mantissas *)

Lemma fexp_eq (x : Z) : fexp x = Z.max (x - 53) (-1074).
Proof. reflexivity. Qed.

Lemma digits2_pos_size (p : positive) : digits2_pos p = Pos.size p.
Proof. induction p; simpl; congruence. Qed.

Lemma Zdigits2_nonneg (m : Z) : 0 <= Zdigits2 m.
Proof. destruct m; simpl; lia. Qed.

Lemma Zdigits2_lt_pow (m : Z) : 0 <= m -> m < 2 ^ Zdigits2 m.
Proof.
  destruct m as [|p|p]; unfold Zdigits2; intros H; try lia.
  rewrite digits2_pos_size.
  pose proof (Pos.size_gt p) as G.
  apply Pos2Z.pos_lt_pos in G. rewrite Pos2Z.inj_pow in G. exact G.
Qed.

Lemma Zdigits2_ge_pow (m : Z) : 0 < m -> 2 ^ (Zdigits2 m - 1) <= m.
Proof.
  destruct m as [|p|p]; unfold Zdigits2; intros H; try lia.
  rewrite digits2_pos_size.
  pose proof (Pos.size_le p) as G.
  apply Pos2Z.pos_le_pos in G. rewrite Pos2Z.inj_pow in G.
  change (Z.pos p~0) with (2 * Z.pos p) in G.
  replace (Z.pos (Pos.size p)) with (Z.succ (Z.pos (Pos.size p) - 1)) in G by lia.
  rewrite Z.pow_succ_r in G by lia. lia.
Qed.

(** [m < 2^d] bounds the number of digits of [m] by [d]. *)
Lemma Zdigits2_le (m d : Z) : 0 <= m -> 0 <= d -> m < 2 ^ d -> Zdigits2 m <= d.
Proof.
  intros Hm Hd Hlt.
  destruct (Z.eq_dec m 0) as [->|Hnz]; [simpl; lia|].
  pose proof (Zdigits2_ge_pow m ltac:(lia)) as G.
  pose proof (Zdigits2_nonneg m) as N.
  destruct (Z_lt_le_dec d (Zdigits2 m)) as [L|L]; [|exact L].
  exfalso.
  assert (2 ^ d <= 2 ^ (Zdigits2 m - 1)) by (apply Z.pow_le_mono_r; lia).
  lia.
Qed.

Lemma Zdigits2_succ (m : Z) : 0 <= m -> Zdigits2 (m + 1) <= Zdigits2 m + 1.
Proof.
  intros Hm. pose proof (Zdigits2_nonneg m) as N.
  apply Zdigits2_le; try lia.
  pose proof (Zdigits2_lt_pow m Hm).
  rewrite Z.pow_add_r by lia. lia.
Qed.

Lemma Zdigits2_mul (a b : positive) :
  Zdigits2 (Zpos (a * b)) <= Zdigits2 (Zpos a) + Zdigits2 (Zpos b).
Proof.
  pose proof (Zdigits2_nonneg (Zpos a)) as Na.
  pose proof (Zdigits2_nonneg (Zpos b)) as Nb.
  apply Zdigits2_le; try lia.
  pose proof (Zdigits2_lt_pow (Zpos a) ltac:(lia)).
  pose proof (Zdigits2_lt_pow (Zpos b) ltac:(lia)).
  rewrite Z.pow_add_r by lia. rewrite Pos2Z.inj_mul. nia.
Qed.

Lemma digits2_pos_iter_xO (m d : positive) :
  Zpos (digits2_pos (Pos.iter xO m d)) = Zpos (digits2_pos m) + Zpos d.
Proof.
  induction d using Pos.peano_ind.
  - simpl. lia.
  - rewrite Pos.iter_succ. simpl. lia.
Qed.

(** ** Rounding: sign and exponent of a rounded product *)

Lemma shr_1_mantissa (r : shr_record) :
  0 <= shr_m r ->
  0 <= shr_m (shr_1 r) /\ Zdigits2 (shr_m (shr_1 r)) <= Zdigits2 (shr_m r).
Proof.
  destruct r as [m b c]; cbn [shr_m]; intros Hm.
  destruct m as [|[q|q|]|q]; cbn; try lia.
Qed.

Lemma iter_shr_1_mantissa (n : positive) (r : shr_record) :
  0 <= shr_m r ->
  0 <= shr_m (iter_pos shr_1 n r)
  /\ Zdigits2 (shr_m (iter_pos shr_1 n r)) <= Zdigits2 (shr_m r).
Proof.
  revert r; induction n as [n IH|n IH|]; intros r Hr; cbn [iter_pos].
  - destruct (shr_1_mantissa r Hr) as [A1 B1].
    destruct (IH _ A1) as [A2 B2]. destruct (IH _ A2) as [A3 B3]. lia.
  - destruct (IH _ Hr) as [A2 B2]. destruct (IH _ A2) as [A3 B3]. lia.
  - apply shr_1_mantissa, Hr.
Qed.

Lemma shr_record_of_loc_m (m : Z) (l : location) :
  shr_m (shr_record_of_loc m l) = m.
Proof. destruct l as [|[]]; reflexivity. Qed.

Lemma shr_fexp_spec (m e : Z) (l : location) :
  0 <= m ->
  exists r, shr_fexp prec emax m e l = (r, Z.max e (fexp (Zdigits2 m + e)))
            /\ 0 <= shr_m r /\ Zdigits2 (shr_m r) <= Zdigits2 m.
Proof.
  intros Hm. unfold shr_fexp, shr.
  pose proof (shr_record_of_loc_m m l) as Hrec.
  destruct (fexp (Zdigits2 m + e) - e) as [|n|n] eqn:E.
  - exists (shr_record_of_loc m l). rewrite Hrec.
    repeat split; try lia. f_equal. lia.
  - exists (iter_pos shr_1 n (shr_record_of_loc m l)).
    destruct (iter_shr_1_mantissa n (shr_record_of_loc m l)) as [A B];
      [rewrite Hrec; exact Hm|].
    rewrite Hrec in B. repeat split; try lia. f_equal. lia.
  - exists (shr_record_of_loc m l). rewrite Hrec.
    repeat split; try lia. f_equal. lia.
Qed.

Lemma round_nearest_even_cases (m : Z) (l : location) :
  round_nearest_even m l = m \/ round_nearest_even m l = m + 1.
Proof.
  destruct l as [|[]]; cbn [round_nearest_even]; auto.
  destruct (Z.even m); auto.
Qed.

(** What rounding a non-negative mantissa can return: a zero or a finite
    float of the given sign, with the size of its mantissa and exponent
    bounded by those of the argument, or an infinity of that sign when the
    exponent is out of range; never a NaN. *)
Lemma binary_round_aux_spec (s : bool) (m e : Z) (l : location) :
  0 <= m ->
  exists m' e',
    0 <= m' /\ Zdigits2 m' <= Zdigits2 m + 1
    /\ e' <= Z.max (Z.max e (fexp (Zdigits2 m + e)))
                   (fexp (Zdigits2 m + 1 + Z.max e (fexp (Zdigits2 m + e))))
    /\ binary_round_aux prec emax s m e l =
       match m' with
       | Z0 => S754_zero s
       | Zpos q => if e' <=? emax - prec then S754_finite s q e'
                   else S754_infinity s
       | Zneg _ => S754_nan
       end.
Proof.
  intros Hm. unfold binary_round_aux.
  destruct (shr_fexp_spec m e l Hm) as (r1 & E1 & P1 & D1).
  rewrite E1.
  set (e1 := Z.max e (fexp (Zdigits2 m + e))) in *.
  set (m2 := round_nearest_even (shr_m r1) (loc_of_shr_record r1)).
  assert (H2 : 0 <= m2 /\ Zdigits2 m2 <= Zdigits2 m + 1).
  { unfold m2.
    destruct (round_nearest_even_cases (shr_m r1) (loc_of_shr_record r1))
      as [-> | ->]; [lia|].
    pose proof (Zdigits2_succ (shr_m r1) P1). lia. }
  destruct H2 as [P2 D2].
  destruct (shr_fexp_spec m2 e1 loc_Exact P2) as (r3 & E3 & P3 & D3).
  rewrite E3.
  exists (shr_m r3), (Z.max e1 (fexp (Zdigits2 m2 + e1))).
  repeat split; try lia.
  rewrite !fexp_eq. lia.
Qed.

Lemma binary_round_aux_nonneg (m e D E : Z) (l : location) :
  0 <= m -> Zdigits2 m <= D -> e <= E ->
  Z.max (Z.max E (fexp (D + E))) (fexp (D + 1 + Z.max E (fexp (D + E))))
    <= emax - prec ->
  nonneg_within (D + 1)
    (Z.max (Z.max E (fexp (D + E))) (fexp (D + 1 + Z.max E (fexp (D + E)))))
    (binary_round_aux prec emax false m e l).
Proof.
  intros Hm HD HE Hfit.
  destruct (binary_round_aux_spec false m e l Hm) as (m' & e' & P & Dg & Ex & ->).
  assert (Hb : e' <= Z.max (Z.max E (fexp (D + E)))
                           (fexp (D + 1 + Z.max E (fexp (D + E))))).
  { revert Ex. rewrite !fexp_eq. lia. }
  destruct m' as [|q|q]; [left; reflexivity| |lia].
  assert (Hle : (e' <=? emax - prec) = true).
  { apply Z.leb_le. lia. }
  rewrite Hle. right. exists q, e'. repeat split; [|exact Hb].
  change (Zdigits2 (Zpos q) <= D + 1). lia.
Qed.

(** Converting a list length never overflows and gives a non-negative
    float. *)
Lemma float_of_int_length (n : Z) :
  0 < n <= sys_maxsize ->
  exists x, float_of_int n = Ok x /\ nonneg_within 64 21 x.
Proof.
  intros [Hpos Hmax]. destruct n as [|pn|pn]; try lia.
  assert (Hd : Zdigits2 (Zpos pn) <= 63).
  { apply Zdigits2_le; try lia. unfold sys_maxsize in Hmax. lia. }
  cbn [Zdigits2] in Hd.
  unfold float_of_int, binary_normalize, binary_round, shl_align.
  set (g := Z.pos (digits2_pos pn)) in *.
  assert (Hg : 0 < g) by (unfold g; lia).
  assert (Hx : exists mz ez,
             (match fexp (g + 0) - 0 with
              | Z.neg d => (Pos.iter xO pn d, fexp (g + 0))
              | _ => (pn, 0)
              end) = (mz, ez)
             /\ Zdigits2 (Zpos mz) <= 63 /\ ez <= 0).
  { destruct (fexp (g + 0) - 0) as [|d|d] eqn:E.
    - exists pn, 0. auto with zarith.
    - exists pn, 0. auto with zarith.
    - exists (Pos.iter xO pn d), (fexp (g + 0)). split; [reflexivity|].
      cbn [Zdigits2]. rewrite digits2_pos_iter_xO. fold g.
      revert E. rewrite !fexp_eq. lia. }
  destruct Hx as (mz & ez & -> & Dz & Ez).
  pose proof (binary_round_aux_nonneg (Zpos mz) ez 63 0 loc_Exact
                ltac:(lia) Dz Ez ltac:(vm_compute; discriminate)) as Hn.
  assert (Hn' : nonneg_within 64 21
                  (binary_round_aux prec emax false (Z.pos mz) ez loc_Exact)).
  { destruct Hn as [->|(m & e & -> & A & B)]; [left; reflexivity|].
    right. exists m, e. repeat split; try lia.
    revert B. rewrite !fexp_eq. lia. }
  destruct Hn' as [E|(m & e & E & A & B)]; rewrite E; eexists; split;
    try reflexivity.
  - left; reflexivity.
  - right. exists m, e. auto.
Qed.

(** The shape of a fraction in [0, 1). *)
Lemma fraction_cases (p : float) :
  is_fraction p = true ->
  (exists s, p = S754_zero s)
  \/ exists m e, p = S754_finite false m e
                 /\ Zpos (digits2_pos m) <= 53 /\ e <= -52.
Proof.
  unfold is_fraction, is_binary64, float_le, float_lt, float_zero, float_one.
  destruct p as [s|s| |s m e]; cbn [valid_binary SFleb SFltb SFcompare andb].
  - intros _. left. exists s. reflexivity.
  - destruct s; cbn; discriminate.
  - discriminate.
  - intros H. apply andb_prop in H as [H Hlt]. apply andb_prop in H as [Hv Hle].
    destruct s; [discriminate|].
    right. exists m, e. split; [reflexivity|].
    unfold bounded, canonical_mantissa in Hv.
    apply andb_prop in Hv as [Hc _]. apply Z.eqb_eq in Hc.
    split.
    + revert Hc. rewrite fexp_eq. lia.
    + destruct (Z.compare_spec e (-52)) as [E|E|E]; try lia.
Qed.

(** [len(data) * p] followed by [int(...)]: for a fraction [p] the product
    is finite and non-negative, so the conversion succeeds, truncation and
    floor agree, and the result is not negative. *)
Lemma rank_defined (n : Z) (p : float) :
  0 <= n <= sys_maxsize -> is_fraction p = true ->
  exists x k, int_mul_float n p = Ok x /\ int_of_float x = Ok k
              /\ float_floor x = Some k /\ 0 <= k.
Proof.
  intros [Hn Hmax] Hp.
  assert (Hzero : forall s, exists x k,
             Ok (A := float) (S754_zero s) = Ok x /\ int_of_float x = Ok k
             /\ float_floor x = Some k /\ 0 <= k).
  { intros s. exists (S754_zero s), 0. repeat split; lia. }
  assert (Hfin : forall D E x, nonneg_within D E x -> exists x' k,
             Ok x = Ok x' /\ int_of_float x' = Ok k
             /\ float_floor x' = Some k /\ 0 <= k).
  { intros D E x [->|(m & e & -> & _ & _)]; [apply Hzero|].
    exists (S754_finite false m e), (Z.shiftl (Zpos m) e).
    repeat split. apply Z.shiftl_nonneg. lia. }
  unfold int_mul_float.
  destruct (Z.eq_dec n 0) as [->|Hnz].
  - change (float_of_int 0) with (Ok (S754_zero false)).
    destruct (fraction_cases p Hp) as [[s ->]|(m & e & -> & _ & _)];
      apply Hzero.
  - destruct (float_of_int_length n ltac:(lia)) as (x0 & -> & Hx0).
    destruct Hx0 as [->|(mx & ex & -> & Dx & Ex)];
      destruct (fraction_cases p Hp) as [[s ->]|(mp & ep & -> & Dp & Ep)];
      try apply Hzero.
    unfold float_mul, SFmul. cbn [xorb].
    eapply Hfin, (binary_round_aux_nonneg (Zpos (mx * mp)) (ex + ep)
                                   117 (-31) loc_Exact); try lia.
    + pose proof (Zdigits2_mul mx mp). cbn [Zdigits2] in *. lia.
    + vm_compute. discriminate.
Qed.

(** ** Sorting *)

Lemma insort_perm (x : float) (l : list float) :
  Permutation (x :: l) (insort x l).
Proof.
  induction l as [|y r IH]; cbn [insort]; [reflexivity|].
  destruct (float_lt y x); [|reflexivity].
  rewrite perm_swap. apply perm_skip, IH.
Qed.

Lemma list_sort_perm (l : list float) : Permutation l (list_sort l).
Proof.
  induction l as [|x r IH]; cbn [list_sort]; [reflexivity|].
  rewrite <- insort_perm. apply perm_skip, IH.
Qed.

Lemma len_list_sort (l : list float) : len (list_sort l) = len l.
Proof.
  unfold len. f_equal. symmetry. apply Permutation_length, list_sort_perm.
Qed.

Lemma len_nonneg {A} (l : list A) : 0 <= len l.
Proof. unfold len; lia. Qed.

Lemma len_pos {A} (l : list A) : l <> [] -> 0 < len l.
Proof. destruct l; [congruence|]. unfold len; cbn [List.length]; lia. Qed.

(** [percentile] sorts, then reads one item at the selected index, the
    floor [f] of the product clamped to the last position. *)
Lemma percentile_run (p : float) (data : list float) :
  len data <= sys_maxsize -> is_fraction p = true ->
  exists f, 0 <= f
            /\ nearest_rank (len data) p = Some (Z.min f (len data - 1))
            /\ percentile p data
               = (getitem (list_sort data) (Z.min f (len data - 1)),
                  list_sort data).
Proof.
  intros Hmax Hp.
  destruct (rank_defined (len data) p) as (x & k & Hx & Hk & Hf & Hk0);
    [pose proof (len_nonneg data); lia|exact Hp|].
  exists k. split; [exact Hk0|].
  unfold nearest_rank. rewrite Hx, Hf. cbn [option_map].
  split; [reflexivity|].
  unfold percentile, bind, modify, gets, lift.
  rewrite len_list_sort, Hx, Hk. reflexivity.
Qed.

(** ** The order of floats *)

Ltac compare_cases :=
  repeat match goal with
    | |- context [Z.compare ?a ?b] => destruct (Z.compare_spec a b)
    | |- context [PosDef.Pos.compare_cont Eq ?a ?b] =>
        change (PosDef.Pos.compare_cont Eq a b) with (Pos.compare a b);
        destruct (Pos.compare_spec a b)
    end.

Ltac float_order :=
  unfold float_lt, float_le, float_eq, SFltb, SFleb, SFeqb, SFcompare, is_nan;
  repeat match goal with
    | x : float |- _ => destruct x as [[]|[]| |[] ? ?]
    end;
  cbn [CompOpp andb]; compare_cases; cbn [CompOpp andb];
  intros; subst; try reflexivity; try discriminate; try lia.

Lemma float_lt_asym (x y : float) :
  float_lt y x = true -> float_lt x y = false.
Proof. float_order. Qed.

Lemma float_le_total (x y : float) :
  is_nan x = false -> is_nan y = false ->
  float_lt y x = false -> float_le x y = true.
Proof. float_order. Qed.

Lemma float_lt_le (x y : float) : float_lt x y = true -> float_le x y = true.
Proof. float_order. Qed.

Lemma float_le_trans (x y z : float) :
  float_le x y = true -> float_le y z = true -> float_le x z = true.
Proof. float_order. Qed.

Lemma float_le_antisym (x y : float) :
  float_le x y = true -> float_le y x = true -> float_eq x y = true.
Proof. float_order. Qed.

Lemma float_le_not_nan (x y : float) :
  float_le x y = true -> is_nan x = false /\ is_nan y = false.
Proof. float_order; split; reflexivity. Qed.

Lemma numbers_perm (l l' : list float) :
  Permutation l l' -> numbers l -> numbers l'.
Proof. intros HP. apply Permutation_Forall, HP. Qed.

Lemma insort_ascending (x : float) (l : list float) :
  is_nan x = false -> numbers l -> ascending l -> ascending (insort x l).
Proof.
  unfold ascending. intros Hx Hl Hs.
  induction l as [|y r IH]; cbn [insort].
  - constructor; constructor.
  - inversion Hl as [|? ? Hy Hr]; subst.
    inversion Hs as [|? ? Sr Fy]; subst.
    destruct (float_lt y x) eqn:C.
    + constructor; [apply IH; assumption|].
      apply (Permutation_Forall (insort_perm x r)).
      constructor; [apply float_lt_le, C|exact Fy].
    + assert (Hxy : float_le x y = true) by (apply float_le_total; assumption).
      constructor; [exact Hs|].
      constructor; [exact Hxy|].
      revert Fy. apply Forall_impl. intros z Hz.
      apply (float_le_trans x y z); assumption.
Qed.

(** On numbers the sort yields an ascending list. *)
Lemma list_sort_ascending (l : list float) :
  numbers l -> ascending (list_sort l).
Proof.
  induction l as [|x r IH]; intros Hl; cbn [list_sort].
  - constructor.
  - inversion Hl as [|? ? Hx Hr]; subst.
    apply insort_ascending; [exact Hx| |apply IH, Hr].
    apply (numbers_perm r); [apply list_sort_perm|exact Hr].
Qed.

Lemma insort_no_descent (x : float) (l : list float) :
  no_descent l -> no_descent (insort x l).
Proof.
  unfold no_descent. intros Hs.
  induction l as [|y r IH]; cbn [insort].
  - repeat constructor.
  - inversion Hs as [|? ? Sr Hd]; subst.
    destruct (float_lt y x) eqn:C.
    + constructor; [apply IH, Sr|].
      destruct r as [|z r']; cbn [insort].
      * constructor. apply float_lt_asym, C.
      * inversion Hd; subst.
        destruct (float_lt z x); constructor;
          [assumption|apply float_lt_asym, C].
    + constructor; [exact Hs|]. constructor. exact C.
Qed.

Lemma list_sort_no_descent (l : list float) : no_descent (list_sort l).
Proof.
  induction l as [|x r IH]; cbn [list_sort].
  - constructor.
  - apply insort_no_descent, IH.
Qed.

(** A list without descent is left as it is. *)
Lemma list_sort_fixed (l : list float) : no_descent l -> list_sort l = l.
Proof.
  unfold no_descent.
  induction l as [|x r IH]; intros Hs; cbn [list_sort]; [reflexivity|].
  inversion Hs as [|? ? Sr Hd]; subst.
  rewrite (IH Sr).
  destruct Hd as [|z r' Hz]; cbn [insort]; [reflexivity|].
  rewrite Hz. reflexivity.
Qed.

(** Sorting a second time changes nothing. *)
Lemma list_sort_idempotent (l : list float) :
  list_sort (list_sort l) = list_sort l.
Proof. apply list_sort_fixed, list_sort_no_descent. Qed.

(** The product is the rounded one: [100 * 0.95] is the float [95.0], so
    the rank is 95, although the double nearest to 0.95 lies below it. *)
Example rank_of_100_samples :
  nearest_rank 100 p95 = Some 95 /\ nearest_rank 5 p95 = Some 4
  /\ nearest_rank 5 p50 = Some 2 /\ nearest_rank 5 p99 = Some 4.
Proof. repeat split. Qed.

(** ** Indexing *)

Lemma getitem_in_range {A} (l : list A) (k : Z) (d : A) :
  0 <= k < len l -> getitem l k = Ok (nth (Z.to_nat k) l d).
Proof.
  intros [H0 H1].
  assert (E1 : (k <? 0) = false) by (apply Z.ltb_ge; lia).
  assert (E2 : (len l <=? k) = false) by (apply Z.leb_gt; lia).
  unfold getitem. rewrite E1. cbv zeta. rewrite E1, E2. cbn [orb].
  assert (Hlt : (Z.to_nat k < List.length l)%nat) by (unfold len in H1; lia).
  rewrite (nth_error_nth' l d Hlt). reflexivity.
Qed.

Lemma getitem_In {A} (l : list A) (k : Z) (v : A) :
  getitem l k = Ok v -> In v l.
Proof.
  unfold getitem.
  destruct ((_ <? 0) || (len l <=? _)); [discriminate|].
  destruct (nth_error l _) eqn:E; [|discriminate].
  intros [= <-]. eapply nth_error_In, E.
Qed.

Lemma getitem_empty {A} (k : Z) : getitem (@nil A) k = Raise IndexError.
Proof.
  unfold getitem, len. cbn [List.length].
  destruct ((_ <? 0) || (_ <=? _)); [reflexivity|].
  destruct (Z.to_nat _); reflexivity.
Qed.

(** ** [percentile] *)

(** On a non-empty list of admissible length [percentile] returns one of
    the items of the list. *)
Lemma percentile_returns (p : float) (data : list float) :
  data <> [] -> len data <= sys_maxsize -> is_fraction p = true ->
  exists v, percentile p data = (Ok v, list_sort data) /\ In v data.
Proof.
  intros Hne Hmax Hp.
  destruct (percentile_run p data Hmax Hp) as (f & Hf & _ & Hrun).
  pose proof (len_pos data Hne) as Hpos.
  set (k := Z.min f (len data - 1)) in *.
  assert (Hget : getitem (list_sort data) k
                 = Ok (nth (Z.to_nat k) (list_sort data) S754_nan)).
  { apply getitem_in_range. rewrite len_list_sort. lia. }
  exists (nth (Z.to_nat k) (list_sort data) S754_nan).
  split; [rewrite Hrun, Hget; reflexivity|].
  apply (Permutation_in _ (Permutation_sym (list_sort_perm data))).
  eapply getitem_In, Hget.
Qed.

(** C1 -- on a non-empty list of [n] numbers and for a fraction [p] in
    [0, 1), [percentile] returns the item at index
    [min(floor(n * p), n - 1)] of the ascending-sorted list, which is also
    the list [data] is left as: a rearrangement of the samples in ascending
    order. *)
Theorem percentile_nearest_rank (data : list float) (p : float) :
  data <> [] -> len data <= sys_maxsize -> numbers data ->
  is_fraction p = true ->
  exists k,
    nearest_rank (len data) p = Some k
    /\ 0 <= k < len data
    /\ Permutation data (list_sort data)
    /\ ascending (list_sort data)
    /\ percentile p data
       = (Ok (nth (Z.to_nat k) (list_sort data) S754_nan), list_sort data).
Proof.
  intros Hne Hmax Hnum Hp.
  destruct (percentile_run p data Hmax Hp) as (f & Hf & Hk & Hrun).
  pose proof (len_pos data Hne) as Hpos.
  exists (Z.min f (len data - 1)). repeat split; try lia.
  - exact Hk.
  - apply list_sort_perm.
  - apply list_sort_ascending, Hnum.
  - rewrite Hrun. f_equal. apply getitem_in_range.
    rewrite len_list_sort. lia.
Qed.

Lemma percentile_nearest_rank_witness :
  exists k,
    nearest_rank (len [ms 30; ms 10; ms 50; ms 20; ms 40]) p50 = Some k
    /\ 0 <= k < len [ms 30; ms 10; ms 50; ms 20; ms 40]
    /\ Permutation [ms 30; ms 10; ms 50; ms 20; ms 40]
                   (list_sort [ms 30; ms 10; ms 50; ms 20; ms 40])
    /\ ascending (list_sort [ms 30; ms 10; ms 50; ms 20; ms 40])
    /\ percentile p50 [ms 30; ms 10; ms 50; ms 20; ms 40]
       = (Ok (nth (Z.to_nat k)
                  (list_sort [ms 30; ms 10; ms 50; ms 20; ms 40]) S754_nan),
          list_sort [ms 30; ms 10; ms 50; ms 20; ms 40]).
Proof.
  apply (percentile_nearest_rank [ms 30; ms 10; ms 50; ms 20; ms 40] p50).
  - discriminate.
  - vm_compute. discriminate.
  - repeat constructor.
  - reflexivity.
Defined.

(** C2 -- for a sample set of size [n >= 1] and a fraction [p] in [0, 1),
    the index [min(floor(n * p), n - 1)] that [percentile] selects lies in
    [0, n - 1]: reading any list of [n] items there succeeds, and the call
    returns a value, one of the samples, instead of raising. *)
Theorem percentile_index_in_bounds (data : list float) (p : float) :
  1 <= len data <= sys_maxsize -> is_fraction p = true ->
  exists k,
    nearest_rank (len data) p = Some k
    /\ 0 <= k <= len data - 1
    /\ (forall s : list float, len s = len data ->
                               exists v, getitem s k = Ok v)
    /\ exists v, fst (percentile p data) = Ok v /\ In v data.
Proof.
  intros [Hn Hmax] Hp.
  destruct (percentile_run p data Hmax Hp) as (f & Hf & Hk & Hrun).
  set (k := Z.min f (len data - 1)) in *.
  exists k. repeat split; try lia; try exact Hk.
  - intros s Hs. exists (nth (Z.to_nat k) s S754_nan).
    apply getitem_in_range. rewrite Hs. lia.
  - assert (Hne : data <> []).
    { intros ->. unfold len in Hn. cbn [List.length] in Hn. lia. }
    destruct (percentile_returns p data Hne Hmax Hp) as (v & Hv & Hin).
    exists v. rewrite Hv. split; [reflexivity|exact Hin].
Qed.

Lemma percentile_index_in_bounds_witness :
  exists k,
    nearest_rank (len [ms 7; ms 7; ms 3]) p99 = Some k
    /\ 0 <= k <= len [ms 7; ms 7; ms 3] - 1
    /\ (forall s : list float, len s = len [ms 7; ms 7; ms 3] ->
                               exists v, getitem s k = Ok v)
    /\ exists v, fst (percentile p99 [ms 7; ms 7; ms 3]) = Ok v
                 /\ In v [ms 7; ms 7; ms 3].
Proof.
  apply (percentile_index_in_bounds [ms 7; ms 7; ms 3] p99).
  - vm_compute. split; discriminate.
  - reflexivity.
Defined.

(** C6 -- for a fraction [p] in [0, 1): on the empty list the selected
    index is [min(0, -1) = -1] and the access raises [IndexError]; on a
    non-empty list a value is returned; so [percentile] raises exactly when
    the list is empty. *)
Theorem percentile_raises_iff_empty (data : list float) (p : float) :
  len data <= sys_maxsize -> is_fraction p = true ->
  (data = [] ->
   nearest_rank (len data) p = Some (Z.min 0 (-1))
   /\ percentile p data = (Raise IndexError, []))
  /\ (data <> [] -> exists v, fst (percentile p data) = Ok v)
  /\ ((exists e, fst (percentile p data) = Raise e) <-> data = []).
Proof.
  intros Hmax Hp.
  assert (Hempty : data = [] ->
            nearest_rank (len data) p = Some (Z.min 0 (-1))
            /\ percentile p data = (Raise IndexError, [])).
  { intros ->.
    destruct (percentile_run p [] Hmax Hp) as (f & Hf & Hk & Hrun).
    split.
    - rewrite Hk. f_equal. change (len (@nil float) - 1) with (-1). lia.
    - rewrite Hrun. cbn [list_sort]. rewrite getitem_empty. reflexivity. }
  assert (Hfull : data <> [] -> exists v, fst (percentile p data) = Ok v).
  { intros Hne.
    destruct (percentile_returns p data Hne Hmax Hp) as (v & Hv & _).
    exists v. rewrite Hv. reflexivity. }
  split; [exact Hempty|]. split; [exact Hfull|]. split.
  - intros [e He]. destruct data as [|x r]; [reflexivity|].
    destruct Hfull as [v Hv]; [discriminate|].
    rewrite Hv in He. discriminate.
  - intros Hd. destruct (Hempty Hd) as [_ Hr]. exists IndexError.
    rewrite Hr. reflexivity.
Qed.

Lemma percentile_raises_iff_empty_witness :
  (@nil float = [] ->
   nearest_rank (len (@nil float)) p95 = Some (Z.min 0 (-1))
   /\ percentile p95 [] = (Raise IndexError, []))
  /\ (@nil float <> [] -> exists v, fst (percentile p95 []) = Ok v)
  /\ ((exists e, fst (percentile p95 []) = Raise e) <-> @nil float = []).
Proof.
  apply (percentile_raises_iff_empty [] p95).
  - vm_compute. discriminate.
  - reflexivity.
Defined.

(** C10 -- on a non-empty list and for a fraction [p] in [0, 1) the value
    [percentile] returns is one of the samples. *)
Theorem percentile_is_a_sample (data : list float) (p : float) :
  data <> [] -> len data <= sys_maxsize -> is_fraction p = true ->
  exists v, fst (percentile p data) = Ok v /\ In v data.
Proof.
  intros Hne Hmax Hp.
  destruct (percentile_returns p data Hne Hmax Hp) as (v & Hv & Hin).
  exists v. rewrite Hv. split; [reflexivity|exact Hin].
Qed.

Lemma percentile_is_a_sample_witness :
  exists v, fst (percentile p95 [ms 12; ms 5; ms 9; ms 5]) = Ok v
            /\ In v [ms 12; ms 5; ms 9; ms 5].
Proof.
  apply (percentile_is_a_sample [ms 12; ms 5; ms 9; ms 5] p95).
  - discriminate.
  - vm_compute. discriminate.
  - reflexivity.
Defined.

Lemma float_lt_irrefl (x : float) : float_lt x x = false.
Proof. float_order. Qed.

Lemma float_le_refl (x : float) : is_nan x = false -> float_le x x = true.
Proof. float_order. Qed.

Lemma no_descent_repeat (v : float) (n : nat) : no_descent (repeat v n).
Proof.
  unfold no_descent. induction n as [|n IH]; cbn [repeat]; constructor.
  - exact IH.
  - destruct n; cbn [repeat]; constructor. apply float_lt_irrefl.
Qed.

Lemma percentile_repeat (p v : float) (n : nat) :
  (1 <= n)%nat -> Z.of_nat n <= sys_maxsize -> is_fraction p = true ->
  percentile p (repeat v n) = (Ok v, repeat v n).
Proof.
  intros Hn Hmax Hp.
  destruct (percentile_returns p (repeat v n)) as (w & Hw & Hin).
  - destruct n; [lia|discriminate].
  - unfold len. rewrite repeat_length. exact Hmax.
  - exact Hp.
  - apply repeat_spec in Hin. subst w.
    rewrite Hw, (list_sort_fixed _ (no_descent_repeat v n)). reflexivity.
Qed.

(** C8 -- when the samples are one value [v] repeated [n >= 1] times, each
    of [percentile(data, 0.50)], [percentile(data, 0.95)] and
    [percentile(data, 0.99)] is [v] (and [data] stays as it was). *)
Theorem percentile_constant (v : float) (n : nat) :
  (1 <= n)%nat -> Z.of_nat n <= sys_maxsize ->
  percentile p50 (repeat v n) = (Ok v, repeat v n)
  /\ percentile p95 (repeat v n) = (Ok v, repeat v n)
  /\ percentile p99 (repeat v n) = (Ok v, repeat v n).
Proof.
  intros Hn Hmax.
  repeat split; apply percentile_repeat; auto.
Qed.

Lemma percentile_constant_witness :
  percentile p50 (repeat (ms 42) 4) = (Ok (ms 42), repeat (ms 42) 4)
  /\ percentile p95 (repeat (ms 42) 4) = (Ok (ms 42), repeat (ms 42) 4)
  /\ percentile p99 (repeat (ms 42) 4) = (Ok (ms 42), repeat (ms 42) 4).
Proof.
  apply (percentile_constant (ms 42) 4).
  - lia.
  - vm_compute. discriminate.
Defined.

(** ** Repeated calls and the order of the samples *)

Lemma percentile_state (p : float) (data : list float) :
  snd (percentile p data) = list_sort data.
Proof.
  unfold percentile, bind, modify, gets, lift.
  destruct (int_mul_float _ p) as [x|e]; [|reflexivity].
  destruct (int_of_float x); reflexivity.
Qed.

Lemma percentile_of_sorted (q : float) (data : list float) :
  percentile q (list_sort data) = percentile q data.
Proof.
  unfold percentile, bind, modify, gets, lift.
  rewrite list_sort_idempotent. reflexivity.
Qed.

Lemma count_le_perm (x : float) (l l' : list float) :
  Permutation l l' -> count_le x l = count_le x l'.
Proof.
  unfold count_le. induction 1 as [|a l l' _ IH|a b l|l l' l'' _ IH1 _ IH2];
    cbn [filter].
  - reflexivity.
  - destruct (float_le a x); cbn [List.length]; congruence.
  - destruct (float_le a x), (float_le b x); reflexivity.
  - congruence.
Qed.

Lemma count_le_none (a x : float) (l : list float) :
  float_le a x = false -> Forall (fun y => float_le a y = true) l ->
  count_le x l = 0%nat.
Proof.
  intros Ha. unfold count_le. induction 1 as [|y r Hy _ IH]; cbn [filter].
  - reflexivity.
  - destruct (float_le y x) eqn:C; [|exact IH].
    rewrite (float_le_trans a y x Hy C) in Ha. discriminate.
Qed.

(** In an ascending list the item at position [k] is at most [x] exactly
    when more than [k] items are. *)
Lemma ascending_nth_le (s : list float) (k : nat) (x d : float) :
  ascending s -> (k < List.length s)%nat ->
  float_le (nth k s d) x = true <-> (k < count_le x s)%nat.
Proof.
  unfold ascending. intros Hs. revert k.
  induction Hs as [|a t St IH Fa]; intros k Hk; cbn [List.length] in Hk.
  - lia.
  - unfold count_le. cbn [filter nth].
    destruct (float_le a x) eqn:C.
    + destruct k as [|k]; cbn [List.length].
      * split; [lia|intros _; exact C].
      * rewrite (IH k) by lia. unfold count_le. lia.
    + fold (count_le x t). rewrite (count_le_none a x t C Fa).
      split; [|lia]. intros H. exfalso.
      destruct k as [|k]; [congruence|].
      assert (Hin : In (nth k t d) t) by (apply nth_In; lia).
      rewrite Forall_forall in Fa.
      rewrite (float_le_trans a _ x (Fa _ Hin) H) in C. discriminate.
Qed.

(** Two ascending arrangements of the same numbers carry numerically equal
    items at every position. *)
Lemma ascending_perm_nth (s s' : list float) (k : nat) (d : float) :
  numbers s -> ascending s -> ascending s' -> Permutation s s' ->
  (k < List.length s)%nat ->
  float_eq (nth k s d) (nth k s' d) = true.
Proof.
  intros Hn Hs Hs' HP Hk.
  assert (Hk' : (k < List.length s')%nat)
    by (rewrite <- (Permutation_length HP); exact Hk).
  assert (Hn' : numbers s') by (apply (numbers_perm s); assumption).
  assert (N : is_nan (nth k s d) = false).
  { unfold numbers in Hn. rewrite Forall_forall in Hn.
    apply Hn, nth_In, Hk. }
  assert (N' : is_nan (nth k s' d) = false).
  { unfold numbers in Hn'. rewrite Forall_forall in Hn'.
    apply Hn', nth_In, Hk'. }
  apply float_le_antisym.
  - apply (ascending_nth_le s k _ d Hs Hk).
    rewrite (count_le_perm _ s s' HP).
    apply (ascending_nth_le s' k _ d Hs' Hk'), float_le_refl, N'.
  - apply (ascending_nth_le s' k _ d Hs' Hk').
    rewrite <- (count_le_perm _ s s' HP).
    apply (ascending_nth_le s k _ d Hs Hk), float_le_refl, N.
Qed.

(** C9, as stated, fails: the same numbers in another order can give a
    different result.  With the samples [0.0, -0.0] the stable sort keeps
    the order, so the median is [-0.0]; with [-0.0, 0.0] it is [0.0]. *)
Lemma percentile_order_dependent :
  ~ (forall (data data' : list float) (p : float),
        data <> [] -> len data <= sys_maxsize -> numbers data ->
        is_fraction p = true -> Permutation data data' ->
        fst (percentile p data) = fst (percentile p data')).
Proof.
  intros H.
  specialize (H [pos_zero; neg_zero] [neg_zero; pos_zero] p50).
  assert (E : fst (percentile p50 [pos_zero; neg_zero])
              = fst (percentile p50 [neg_zero; pos_zero])).
  { apply H.
    - discriminate.
    - vm_compute. discriminate.
    - repeat constructor.
    - reflexivity.
    - apply perm_swap. }
  vm_compute in E. discriminate.
Qed.

(** The same on whole runs: the two files hold the lines [0], [-0] in
    either order, and the reports differ. *)
Remark signed_zero_reports :
  printed (run [script_name; "latency.txt"] (zeros_file "0" "-0"))
  = ["P50: -0.0 ms"; "P95: -0.0 ms"; "P99: -0.0 ms"]
  /\ printed (run [script_name; "latency.txt"] (zeros_file "-0" "0"))
     = ["P50: 0.0 ms"; "P95: 0.0 ms"; "P99: 0.0 ms"].
Proof. split; vm_compute; reflexivity. Qed.

(** With a NaN among the samples no order is defined and the position of
    the NaN decides the result. *)
Remark nan_order_matters :
  fst (percentile p50 [S754_nan; ms 1]) = Ok (ms 1)
  /\ fst (percentile p50 [ms 1; S754_nan]) = Ok S754_nan.
Proof. split; reflexivity. Qed.

(** C9, amended -- on a non-empty list of numbers and for fractions [p],
    [q] in [0, 1), [percentile(data, q)] called after [percentile(data, p)]
    returns the value it returns on the list as first given, and leaves the
    same sorted list; its results on two orderings of the same samples are
    numerically equal (they can still differ in the sign of zero). *)
Theorem percentile_repeatable (data : list float) (p q : float) :
  data <> [] -> len data <= sys_maxsize -> numbers data ->
  is_fraction p = true -> is_fraction q = true ->
  (exists v, percentile q data = (Ok v, list_sort data)
             /\ percentile q (snd (percentile p data))
                = (Ok v, list_sort data))
  /\ (forall data', Permutation data data' ->
        exists v v', fst (percentile q data) = Ok v
                     /\ fst (percentile q data') = Ok v'
                     /\ float_eq v v' = true).
Proof.
  intros Hne Hmax Hnum Hp Hq. split.
  - destruct (percentile_returns q data Hne Hmax Hq) as (v & Hv & _).
    exists v. split; [exact Hv|].
    rewrite percentile_state, percentile_of_sorted. exact Hv.
  - intros data' HP.
    assert (Hlen : len data' = len data).
    { unfold len. f_equal. symmetry. apply Permutation_length, HP. }
    pose proof (len_pos data Hne) as Hpos.
    destruct (percentile_run q data Hmax Hq) as (f & Hf & Hk & Hrun).
    destruct (percentile_run q data') as (f' & Hf' & Hk' & Hrun');
      [rewrite Hlen; exact Hmax|exact Hq|].
    rewrite Hlen in Hk', Hrun'. rewrite Hk in Hk'.
    injection Hk' as Hk'. rewrite <- Hk' in Hrun'.
    set (k := Z.min f (len data - 1)) in *.
    rewrite (getitem_in_range _ k S754_nan) in Hrun
      by (rewrite len_list_sort; lia).
    rewrite (getitem_in_range _ k S754_nan) in Hrun'
      by (rewrite len_list_sort; lia).
    rewrite Hrun, Hrun'. cbn [fst].
    eexists; eexists. split; [reflexivity|]. split; [reflexivity|].
    assert (Hnum' : numbers data') by (apply (numbers_perm data); assumption).
    apply ascending_perm_nth.
    + apply (numbers_perm data); [apply list_sort_perm|exact Hnum].
    + apply list_sort_ascending, Hnum.
    + apply list_sort_ascending, Hnum'.
    + rewrite <- (list_sort_perm data), <- (list_sort_perm data'). exact HP.
    + pose proof (len_list_sort data) as L. subst k. unfold len in *. lia.
Qed.

Lemma percentile_repeatable_witness :
  (exists v, percentile p99 [ms 8; ms 2; ms 5]
             = (Ok v, list_sort [ms 8; ms 2; ms 5])
             /\ percentile p99 (snd (percentile p50 [ms 8; ms 2; ms 5]))
                = (Ok v, list_sort [ms 8; ms 2; ms 5]))
  /\ (forall data', Permutation [ms 8; ms 2; ms 5] data' ->
        exists v v', fst (percentile p99 [ms 8; ms 2; ms 5]) = Ok v
                     /\ fst (percentile p99 data') = Ok v'
                     /\ float_eq v v' = true).
Proof.
  apply (percentile_repeatable [ms 8; ms 2; ms 5] p50 p99).
  - discriminate.
  - vm_compute. discriminate.
  - repeat constructor.
  - reflexivity.
  - reflexivity.
Defined.

(** ** [parse_latencies] *)

Lemma float_of_str_raises (s : string) (e : exn) :
  float_of_str s = Raise e -> e = ValueError.
Proof.
  unfold float_of_str.
  destruct (drop_underscores None _) as [t|]; [|congruence].
  destruct (parse_float t); congruence.
Qed.

Lemma valid_values_cons (line : string) (rest : list string) :
  valid_values (line :: rest)
  = match float_of_str (strip line) with
    | Ok v => v :: valid_values rest
    | Raise _ => valid_values rest
    end.
Proof.
  unfold valid_values, valid_line, line_value. cbn [filter].
  destruct (float_of_str (strip line)) eqn:E; cbn [map]; [|reflexivity].
  rewrite E. reflexivity.
Qed.

Lemma valid_values_app (l1 l2 : list string) :
  valid_values (l1 ++ l2) = valid_values l1 ++ valid_values l2.
Proof.
  unfold valid_values. rewrite filter_app, map_app. reflexivity.
Qed.

Lemma valid_values_invalid (line : string) :
  valid_line line = false -> valid_values [line] = [].
Proof. unfold valid_values. cbn [filter]. intros ->. reflexivity. Qed.

Lemma valid_values_filter (lines : list string) :
  valid_values (filter valid_line lines) = valid_values lines.
Proof.
  unfold valid_values. f_equal.
  induction lines as [|l r IH]; cbn [filter]; [reflexivity|].
  destruct (valid_line l) eqn:E; cbn [filter]; [rewrite E; f_equal|]; exact IH.
Qed.

(** The loop appends the values of the valid lines and always completes. *)
Lemma for_each_line_spec (lines : list string) (latencies : list float) :
  for_each_line lines latencies = (Ok tt, latencies ++ valid_values lines).
Proof.
  revert latencies. induction lines as [|line rest IH]; intros latencies.
  - cbn. rewrite app_nil_r. reflexivity.
  - rewrite valid_values_cons. cbn [for_each_line].
    unfold bind, except_ValueError_continue, lift, append, modify.
    destruct (float_of_str (strip line)) as [v|e] eqn:E.
    + rewrite IH, <- app_assoc. reflexivity.
    + rewrite (float_of_str_raises _ _ E). apply IH.
Qed.

Lemma parse_lines_spec (lines : list string) :
  parse_lines lines = Ok (valid_values lines).
Proof. unfold parse_lines. rewrite for_each_line_spec. reflexivity. Qed.

(** What [float()] reads is wider than plain decimals: [nan], the
    infinities, digit-group underscores and exponents are all taken. *)
Example lenient_literals :
  valid_line "nan" = true /\ valid_line "-inf" = true
  /\ valid_line "Infinity" = true /\ valid_line "1_000" = true
  /\ valid_line "1e3" = true /\ valid_line ".5" = true
  /\ valid_line "0x10" = false /\ valid_line "1 2" = false.
Proof. repeat split. Qed.

(** C4 -- for a readable file, [parse_latencies] returns exactly the
    values of the valid lines (each read after trimming), in file order;
    invalid lines leave no trace: dropping them from the file gives the same
    result, and a bad line between two runs of lines gives the values of the
    first run followed by those of the second.  The lines [abc], the empty
    line and [12,5] are invalid. *)
Theorem parse_latencies_valid_lines (fs : filesystem) (path text : string) :
  fs path = Some text ->
  parse_latencies fs path = Ok (valid_values (readlines text))
  /\ parse_lines (filter valid_line (readlines text))
     = parse_latencies fs path
  /\ (forall before bad after,
        valid_line bad = false ->
        parse_lines (before ++ bad :: after)
        = Ok (valid_values before ++ valid_values after))
  /\ valid_line "abc" = false
  /\ valid_line "" = false
  /\ valid_line "12,5" = false.
Proof.
  intros Hfs. unfold parse_latencies. rewrite Hfs.
  rewrite !parse_lines_spec, valid_values_filter.
  repeat split.
  intros before bad after Hbad.
  rewrite parse_lines_spec.
  change (bad :: after) with ([bad] ++ after).
  rewrite !valid_values_app, (valid_values_invalid bad Hbad). reflexivity.
Qed.

Lemma parse_latencies_valid_lines_witness :
  parse_latencies mixed_file "latency.txt"
  = Ok (valid_values (readlines (text_of_lines mixed_lines)))
  /\ parse_lines (filter valid_line (readlines (text_of_lines mixed_lines)))
     = parse_latencies mixed_file "latency.txt"
  /\ (forall before bad after,
        valid_line bad = false ->
        parse_lines (before ++ bad :: after)
        = Ok (valid_values before ++ valid_values after))
  /\ valid_line "abc" = false
  /\ valid_line "" = false
  /\ valid_line "12,5" = false.
Proof.
  apply (parse_latencies_valid_lines mixed_file "latency.txt"
                                     (text_of_lines mixed_lines)).
  reflexivity.
Defined.

(** ** The script *)

Lemma is_fraction_p50 : is_fraction p50 = true.
Proof. reflexivity. Qed.
Lemma is_fraction_p95 : is_fraction p95 = true.
Proof. reflexivity. Qed.
Lemma is_fraction_p99 : is_fraction p99 = true.
Proof. reflexivity. Qed.

Lemma parse_latencies_raises (fs : filesystem) (path : string) (e : exn) :
  parse_latencies fs path = Raise e -> e = OSError.
Proof.
  unfold parse_latencies. destruct (fs path); [|congruence].
  rewrite parse_lines_spec. discriminate.
Qed.

Lemma two_arguments (argv : list string) :
  len argv = 2 -> exists prog path, argv = [prog; path].
Proof.
  destruct argv as [|a [|b [|c r]]]; unfold len; cbn [List.length]; try lia.
  intros _. exists a, b. reflexivity.
Qed.

Lemma main_usage (argv : list string) (fs : filesystem) (w : world) :
  len argv <> 2 ->
  main argv fs w = (Raise (SystemExit 1), World (stdout w ++ [usage]) (data w)).
Proof.
  intros H. unfold main.
  destruct (Z.eqb_spec (len argv) 2) as [E|_]; [contradiction|].
  reflexivity.
Qed.

Lemma main_no_data (prog path : string) (fs : filesystem) (w : world) (e : exn) :
  parse_latencies fs path = Raise e ->
  main [prog; path] fs w = (Raise e, w).
Proof.
  intros H. unfold main. cbn [len List.length Z.of_nat Pos.of_succ_nat
    Pos.succ Z.eqb Pos.eqb negb nth].
  unfold bind, lift. rewrite H. reflexivity.
Qed.

Lemma main_empty_data (prog path : string) (fs : filesystem) (w : world) :
  parse_latencies fs path = Ok [] ->
  main [prog; path] fs w = (Raise IndexError, World (stdout w) []).
Proof.
  intros H. unfold main. cbn [len List.length Z.of_nat Pos.of_succ_nat
    Pos.succ Z.eqb Pos.eqb negb nth].
  unfold bind, lift. rewrite H. reflexivity.
Qed.

(** With samples at hand the three percentiles are computed and printed,
    each on the list as the previous call left it. *)
Lemma main_report (prog path : string) (fs : filesystem) (w : world)
      (d : list float) :
  parse_latencies fs path = Ok d -> d <> [] -> len d <= sys_maxsize ->
  exists v50 v95 v99,
    fst (percentile p50 d) = Ok v50
    /\ fst (percentile p95 d) = Ok v95
    /\ fst (percentile p99 d) = Ok v99
    /\ main [prog; path] fs w
       = (Ok tt,
          World (stdout w ++ [report_line "P50" v50; report_line "P95" v95;
                              report_line "P99" v99])
                (list_sort d)).
Proof.
  intros H Hne Hmax.
  destruct (percentile_returns p50 d Hne Hmax is_fraction_p50) as (v50 & H50 & _).
  destruct (percentile_returns p95 d Hne Hmax is_fraction_p95) as (v95 & H95 & _).
  destruct (percentile_returns p99 d Hne Hmax is_fraction_p99) as (v99 & H99 & _).
  exists v50, v95, v99.
  rewrite H50, H95, H99. repeat split.
  unfold main. cbn [len List.length Z.of_nat Pos.of_succ_nat
    Pos.succ Z.eqb Pos.eqb negb nth].
  unfold bind, lift, bind_data, on_data, print, modify.
  rewrite H. cbn [data stdout]. rewrite H50. cbn [data stdout].
  rewrite percentile_of_sorted, H95. cbn [data stdout].
  rewrite percentile_of_sorted, H99. cbn [data stdout].
  rewrite <- !app_assoc. reflexivity.
Qed.

Lemma report_line_is_percentile_line (v : float) :
  is_percentile_line (report_line "P50" v) = true
  /\ is_percentile_line (report_line "P95" v) = true
  /\ is_percentile_line (report_line "P99" v) = true.
Proof. split; [|split]; reflexivity. Qed.

(** With one argument nothing but report lines is ever printed. *)
Lemma main_prints_reports (prog path : string) (fs : filesystem) :
  Forall (fun l => is_percentile_line l = true)
         (stdout (snd (main [prog; path] fs (World [] [])))).
Proof.
  unfold main. cbn [len List.length Z.of_nat Pos.of_succ_nat
    Pos.succ Z.eqb Pos.eqb negb nth].
  unfold bind, lift, bind_data, on_data, print, modify.
  destruct (parse_latencies fs path) as [d|e]; cbn [snd stdout data];
    [|constructor].
  destruct (percentile p50 d) as [[v50|e] d1]; cbn [snd stdout data app];
    [|constructor].
  destruct (percentile p95 d1) as [[v95|e] d2]; cbn [snd stdout data app];
    [|repeat (apply Forall_cons; [reflexivity|]); constructor].
  destruct (percentile p99 d2) as [[v99|e] d3]; cbn [snd stdout data app];
    repeat (apply Forall_cons; [reflexivity|]); constructor.
Qed.

Lemma usage_is_no_percentile_line : is_percentile_line usage = false.
Proof. reflexivity. Qed.

(** C5 -- with zero or more than one argument the script prints the usage
    line and nothing else and exits with status 1; with exactly one
    argument it does not print the usage line and goes on with the file
    named by that argument: no output and status 1 when it cannot be
    opened, the three report lines and status 0 when it holds samples. *)
Theorem usage_unless_one_argument (argv : list string) (fs : filesystem) :
  (len argv <> 2 ->
   run argv fs = Outcome [usage] 1
   /\ filter is_percentile_line (printed (run argv fs)) = [])
  /\ (len argv = 2 ->
      ~ In usage (printed (run argv fs))
      /\ (forall e, parse_latencies fs (nth 1 argv EmptyString) = Raise e ->
                    run argv fs = Outcome [] 1)
      /\ (forall d, parse_latencies fs (nth 1 argv EmptyString) = Ok d ->
                    d <> [] -> len d <= sys_maxsize ->
                    exists v50 v95 v99,
                      fst (percentile p50 d) = Ok v50
                      /\ fst (percentile p95 d) = Ok v95
                      /\ fst (percentile p99 d) = Ok v99
                      /\ run argv fs
                         = Outcome [report_line "P50" v50;
                                    report_line "P95" v95;
                                    report_line "P99" v99] 0)).
Proof.
  split.
  - intros H. unfold run. rewrite (main_usage argv fs _ H).
    split; reflexivity.
  - intros H. destruct (two_arguments argv H) as (prog & path & ->).
    cbn [nth]. split; [|split].
    + intros Hin.
      pose proof (main_prints_reports prog path fs) as HF.
      rewrite Forall_forall in HF.
      unfold run in Hin.
      destruct (main [prog; path] fs (World [] [])) as [r w].
      cbn [printed snd] in *. specialize (HF usage Hin).
      rewrite usage_is_no_percentile_line in HF. discriminate.
    + intros e He. unfold run. rewrite (main_no_data prog path fs _ e He).
      rewrite (parse_latencies_raises fs path e He). reflexivity.
    + intros d Hd Hne Hmax.
      destruct (main_report prog path fs (World [] []) d Hd Hne Hmax)
        as (v50 & v95 & v99 & H50 & H95 & H99 & Hm).
      exists v50, v95, v99. unfold run. rewrite Hm. auto.
Qed.

(** C7 -- a run prints either the three report lines, P50, P95, P99, and
    ends with status 0, or none of them and ends with status 1. *)
Theorem output_all_or_nothing (argv : list string) (fs : filesystem) :
  (forall d, parse_latencies fs (nth 1 argv EmptyString) = Ok d ->
             len d <= sys_maxsize) ->
  (exists v50 v95 v99,
      run argv fs = Outcome [report_line "P50" v50; report_line "P95" v95;
                             report_line "P99" v99] 0)
  \/ (filter is_percentile_line (printed (run argv fs)) = []
      /\ status (run argv fs) = 1).
Proof.
  intros Hmax.
  destruct (Z.eq_dec (len argv) 2) as [H|H].
  - destruct (two_arguments argv H) as (prog & path & ->). cbn [nth] in Hmax.
    destruct (parse_latencies fs path) as [d|e] eqn:E.
    + destruct d as [|x r].
      * right. unfold run. rewrite (main_empty_data prog path fs _ E).
        split; reflexivity.
      * left.
        destruct (main_report prog path fs (World [] []) (x :: r) E)
          as (v50 & v95 & v99 & _ & _ & _ & Hm);
          [discriminate|apply Hmax; reflexivity|].
        exists v50, v95, v99. unfold run. rewrite Hm. reflexivity.
    + right. unfold run. rewrite (main_no_data prog path fs _ e E).
      rewrite (parse_latencies_raises fs path e E). split; reflexivity.
  - right. unfold run. rewrite (main_usage argv fs _ H). split; reflexivity.
Qed.

Lemma output_all_or_nothing_witness :
  (exists v50 v95 v99,
      run [script_name; "latency.txt"] mixed_file
      = Outcome [report_line "P50" v50; report_line "P95" v95;
                 report_line "P99" v99] 0)
  \/ (filter is_percentile_line
             (printed (run [script_name; "latency.txt"] mixed_file)) = []
      /\ status (run [script_name; "latency.txt"] mixed_file) = 1).
Proof.
  apply (output_all_or_nothing [script_name; "latency.txt"] mixed_file).
  intros d Hd. vm_compute in Hd. injection Hd as <-.
  vm_compute. discriminate.
Defined.

(** Only the trimmed lines matter to the parser. *)
Lemma valid_values_strip (lines lines' : list string) :
  map strip lines = map strip lines' ->
  valid_values lines = valid_values lines'.
Proof.
  revert lines'. induction lines as [|l r IH]; intros [|l' r'] H;
    try discriminate; [reflexivity|].
  cbn [map] in H. injection H as Hl Hr.
  rewrite !valid_values_cons, Hl, (IH r' Hr). reflexivity.
Qed.

(** C3, as stated, fails: the values are floats and are printed as such,
    [30.0] and not [30]. *)
Lemma five_samples_not_printed_as_integers :
  printed (run [script_name; "latency.txt"] five_line_file)
  <> ["P50: 30 ms"; "P95: 50 ms"; "P99: 50 ms"].
Proof. vm_compute. discriminate. Qed.

(** C3, amended -- for a file whose five lines are [10], [20], [30], [40],
    [50] the script prints exactly [P50: 30.0 ms], [P95: 50.0 ms],
    [P99: 50.0 ms], in that order, and ends with status 0; the ranks read
    are 2 for P50 and 4 for P95 and P99. *)
Theorem five_samples_report (prog path text : string) (fs : filesystem) :
  fs path = Some text ->
  map strip (readlines text) = five_lines ->
  run [prog; path] fs
  = Outcome ["P50: 30.0 ms"; "P95: 50.0 ms"; "P99: 50.0 ms"] 0
  /\ nearest_rank 5 p50 = Some 2
  /\ nearest_rank 5 p95 = Some 4
  /\ nearest_rank 5 p99 = Some 4.
Proof.
  intros Hfs Hlines.
  assert (Hparse : parse_latencies fs path
                   = Ok [ms 10; ms 20; ms 30; ms 40; ms 50]).
  { unfold parse_latencies. rewrite Hfs, parse_lines_spec. f_equal.
    rewrite (valid_values_strip (readlines text) five_lines).
    - vm_compute. reflexivity.
    - rewrite Hlines. reflexivity. }
  split; [|repeat split].
  destruct (main_report prog path fs (World [] []) _ Hparse)
    as (v50 & v95 & v99 & H50 & H95 & H99 & Hm).
  - discriminate.
  - vm_compute. discriminate.
  - unfold run. rewrite Hm. cbn [stdout exit_status app].
    vm_compute in H50, H95, H99.
    injection H50 as <-. injection H95 as <-. injection H99 as <-.
    vm_compute. reflexivity.
Qed.

Lemma five_samples_report_witness :
  run [script_name; "latency.txt"] five_line_file
  = Outcome ["P50: 30.0 ms"; "P95: 50.0 ms"; "P99: 50.0 ms"] 0
  /\ nearest_rank 5 p50 = Some 2
  /\ nearest_rank 5 p95 = Some 4
  /\ nearest_rank 5 p99 = Some 4.
Proof.
  apply (five_samples_report script_name "latency.txt"
                             (text_of_lines five_lines) five_line_file).
  - reflexivity.
  - reflexivity.
Defined.

(** * Further properties of the code *)

(** ** Right shifts keep quotient and remainder position *)

Lemma iter_pos_nat {A} (f : A -> A) (n : positive) (x : A) :
  iter_pos f n x = Nat.iter (Pos.to_nat n) f x.
Proof.
  revert x. induction n as [n IH|n IH|]; intros x; cbn [iter_pos].
  - rewrite !IH, Pos2Nat.inj_xI.
    replace (S (2 * Pos.to_nat n))%nat
      with (Pos.to_nat n + (Pos.to_nat n + 1))%nat by lia.
    rewrite !Nat.iter_add. reflexivity.
  - rewrite !IH, Pos2Nat.inj_xO.
    replace (2 * Pos.to_nat n)%nat
      with (Pos.to_nat n + Pos.to_nat n)%nat by lia.
    rewrite Nat.iter_add. reflexivity.
  - reflexivity.
Qed.

Lemma shr_1_fields (m : Z) (r s : bool) :
  0 <= m ->
  shr_1 (Build_shr_record m r s)
  = Build_shr_record (m / 2) (Z.odd m) (r || s).
Proof.
  intros Hm. destruct m as [|[q|q|]|q]; try lia; cbn [shr_1 Z.odd]; f_equal;
    try reflexivity.
  - rewrite Pos2Z.inj_xI. apply (Z.div_unique _ 2 _ 1); lia.
  - rewrite Pos2Z.inj_xO. apply (Z.div_unique _ 2 _ 0); lia.
Qed.

Lemma represents_start (N : Z) :
  represents (shr_record_of_loc N loc_Exact) N 0.
Proof.
  unfold represents. cbn [shr_record_of_loc shr_m loc_of_shr_record].
  rewrite Z.pow_0_r, Z.div_1_r, Z.mod_1_r. split; reflexivity.
Qed.

Lemma represents_step (r : shr_record) (N j : Z) :
  0 <= N -> 0 <= j -> represents r N j -> represents (shr_1 r) N (j + 1).
Proof.
  intros HN Hj [Hq Hl]. destruct r as [m b c]. cbn [shr_m] in Hq.
  assert (Hpow : 0 < 2 ^ j) by (apply Z.pow_pos_nonneg; lia).
  assert (Hm : 0 <= m) by (rewrite Hq; apply Z.div_pos; lia).
  rewrite (shr_1_fields m b c Hm).
  pose proof (Z.mod_pos_bound N (2 ^ j) Hpow) as Hrho.
  assert (Hsplit : N mod 2 ^ (j + 1) = N mod 2 ^ j + 2 ^ j * (m mod 2)).
  { rewrite Z.pow_add_r, Z.pow_1_r by lia.
    rewrite Z.rem_mul_r by lia. rewrite <- Hq. reflexivity. }
  assert (Hdiv : N / 2 ^ (j + 1) = m / 2).
  { rewrite Z.pow_add_r, Z.pow_1_r by lia.
    rewrite <- Z.div_div by lia. rewrite <- Hq. reflexivity. }
  assert (Hp2 : 2 ^ (j + 1) = 2 * 2 ^ j)
    by (rewrite Z.pow_add_r, Z.pow_1_r by lia; lia).
  split; [cbn [shr_m]; symmetry; exact Hdiv|].
  rewrite Hsplit, Hp2.
  assert (Hodd : m mod 2 = if Z.odd m then 1 else 0).
  { rewrite Zmod_odd. reflexivity. }
  rewrite Hodd.
  unfold location_of in *.
  assert (Hbc : (b || c) = negb (N mod 2 ^ j =? 0)).
  { destruct (Z.eqb_spec (N mod 2 ^ j) 0) as [E|E];
      destruct b, c; cbn in Hl |- *; try reflexivity; discriminate. }
  cbn [loc_of_shr_record]. rewrite Hbc.
  destruct (Z.odd m); destruct (Z.eqb_spec (N mod 2 ^ j) 0) as [E|E];
    cbn [negb].
  - rewrite E.
    replace (0 + 2 ^ j * 1 =? 0) with false by (symmetry; apply Z.eqb_neq; lia).
    replace (2 * (0 + 2 ^ j * 1) ?= 2 * 2 ^ j) with Eq
      by (symmetry; apply Z.compare_eq_iff; lia).
    reflexivity.
  - replace (N mod 2 ^ j + 2 ^ j * 1 =? 0) with false
      by (symmetry; apply Z.eqb_neq; lia).
    replace (2 * (N mod 2 ^ j + 2 ^ j * 1) ?= 2 * 2 ^ j) with Gt
      by (symmetry; apply Z.compare_gt_iff; lia).
    reflexivity.
  - rewrite E. replace (0 + 2 ^ j * 0) with 0 by lia. reflexivity.
  - replace (N mod 2 ^ j + 2 ^ j * 0 =? 0) with false
      by (symmetry; apply Z.eqb_neq; lia).
    replace (2 * (N mod 2 ^ j + 2 ^ j * 0) ?= 2 * 2 ^ j) with Lt
      by (symmetry; apply Z.compare_lt_iff; lia).
    reflexivity.
Qed.

Lemma represents_iter (c : nat) (r : shr_record) (N j : Z) :
  0 <= N -> 0 <= j -> represents r N j ->
  represents (Nat.iter c shr_1 r) N (j + Z.of_nat c).
Proof.
  intros HN Hj Hr. induction c as [|c IH].
  - cbn [Nat.iter]. rewrite Z.add_0_r. exact Hr.
  - cbn [Nat.iter]. rewrite Nat2Z.inj_succ.
    replace (j + Z.succ (Z.of_nat c)) with (j + Z.of_nat c + 1) by lia.
    apply represents_step; [lia|lia|exact IH].
Qed.

(** Shifting an exact mantissa to its binary64 exponent. *)
Lemma shr_fexp_exact (m e : Z) :
  0 <= m ->
  exists r, shr_fexp prec emax m e loc_Exact = (r, e + shift_of m e)
            /\ represents r m (shift_of m e).
Proof.
  intros Hm. unfold shr_fexp, shr, shift_of.
  destruct (fexp (Zdigits2 m + e) - e) as [|n|n] eqn:E.
  - exists (shr_record_of_loc m loc_Exact).
    rewrite Z.max_l, Z.add_0_r by lia. split; [reflexivity|].
    apply represents_start.
  - exists (iter_pos shr_1 n (shr_record_of_loc m loc_Exact)).
    rewrite Z.max_r by lia. split; [reflexivity|].
    rewrite iter_pos_nat.
    replace (Z.pos n) with (0 + Z.of_nat (Pos.to_nat n)) by lia.
    apply represents_iter; [exact Hm|lia|apply represents_start].
  - exists (shr_record_of_loc m loc_Exact).
    rewrite Z.max_l, Z.add_0_r by lia. split; [reflexivity|].
    apply represents_start.
Qed.

Lemma round_of_represented (r : shr_record) (N j : Z) :
  represents r N j ->
  round_nearest_even (shr_m r) (loc_of_shr_record r) = round_half_even N j.
Proof.
  intros [Hq Hl]. rewrite Hl, Hq. unfold location_of, round_half_even.
  destruct (Z.eqb_spec (N mod 2 ^ j) 0) as [E|E].
  - rewrite E. cbn [round_nearest_even].
    assert (0 < 2 ^ j \/ 2 ^ j = 0) as [P|P].
    { destruct (Z_lt_le_dec j 0); [right; apply Z.pow_neg_r; lia|].
      left; apply Z.pow_pos_nonneg; lia. }
    + replace (2 * 0 ?= 2 ^ j) with Lt
        by (symmetry; apply Z.compare_lt_iff; lia). reflexivity.
    + rewrite P. cbn. rewrite Z.div_0_r. reflexivity.
  - cbn [round_nearest_even].
    destruct (2 * (N mod 2 ^ j) ?= 2 ^ j); reflexivity.
Qed.

Lemma Zdigits2_mono (a b : Z) : 0 <= a <= b -> Zdigits2 a <= Zdigits2 b.
Proof.
  intros [Ha Hab]. apply Zdigits2_le; [lia|apply Zdigits2_nonneg|].
  pose proof (Zdigits2_lt_pow b ltac:(lia)). lia.
Qed.

Lemma Zdigits2_div_pow2 (m k : Z) :
  0 <= m -> 0 <= k -> Zdigits2 (m / 2 ^ k) <= Z.max 0 (Zdigits2 m - k).
Proof.
  intros Hm Hk.
  pose proof (Zdigits2_nonneg m) as Hd.
  pose proof (Zdigits2_lt_pow m Hm) as Hlt.
  assert (Hpow : 0 < 2 ^ k) by (apply Z.pow_pos_nonneg; lia).
  apply Zdigits2_le; [apply Z.div_pos; lia|lia|].
  apply Z.div_lt_upper_bound; [lia|].
  destruct (Z_lt_le_dec (Zdigits2 m) k) as [L|L].
  - rewrite Z.max_l by lia. rewrite Z.pow_0_r.
    assert (2 ^ Zdigits2 m <= 2 ^ k) by (apply Z.pow_le_mono_r; lia). lia.
  - rewrite Z.max_r by lia. rewrite <- Z.pow_add_r by lia.
    replace (k + (Zdigits2 m - k)) with (Zdigits2 m) by lia. exact Hlt.
Qed.

Lemma round_half_even_cases (m k : Z) :
  round_half_even m k = m / 2 ^ k \/ round_half_even m k = m / 2 ^ k + 1.
Proof.
  unfold round_half_even.
  destruct (2 * (m mod 2 ^ k) ?= 2 ^ k); auto.
  destruct (Z.even (m / 2 ^ k)); auto.
Qed.

(** The second shift of a rounding only ever undoes a carry into bit 53:
    it moves by at most one bit and loses nothing. *)
Lemma carry_shift (m e : Z) :
  0 <= m ->
  let m2 := round_half_even m (shift_of m e) in
  let j := shift_of m2 (e + shift_of m e) in
  (j = 0 \/ j = 1) /\ (m2 / 2 ^ j) * 2 ^ j = m2.
Proof.
  intros Hm m2 j.
  set (k := shift_of m e) in *. set (E := e + k) in *.
  assert (Hk : 0 <= k) by (unfold k, shift_of; lia).
  assert (Hq : 0 <= m / 2 ^ k)
    by (apply Z.div_pos; [lia|apply Z.pow_pos_nonneg; lia]).
  pose proof (Zdigits2_div_pow2 m k Hm Hk) as Hdq.
  pose proof (Zdigits2_nonneg (m / 2 ^ k)) as Hdq0.
  assert (HE : -1074 <= E /\ Zdigits2 (m / 2 ^ k) <= 53).
  { unfold E, k, shift_of in *. rewrite fexp_eq in *. lia. }
  destruct HE as [HE Hd53].
  unfold j, shift_of. rewrite fexp_eq.
  destruct (round_half_even_cases m k) as [H|H]; fold m2 in H; rewrite H.
  - rewrite Z.max_l by lia. rewrite Z.pow_0_r, Z.div_1_r. lia.
  - pose proof (Zdigits2_succ (m / 2 ^ k) Hq) as Hs.
    destruct (Z.eq_dec (Zdigits2 (m / 2 ^ k + 1)) 54) as [D|D].
    + rewrite D.
      replace (Z.max 0 (Z.max (54 + E - 53) (-1074) - E)) with 1 by lia.
      split; [lia|].
      assert (Hlow : 2 ^ 53 <= m / 2 ^ k + 1).
      { pose proof (Zdigits2_ge_pow (m / 2 ^ k + 1) ltac:(lia)) as G.
        rewrite D in G. exact G. }
      assert (Hup : m / 2 ^ k < 2 ^ 53).
      { pose proof (Zdigits2_lt_pow (m / 2 ^ k) Hq) as G.
        assert (2 ^ Zdigits2 (m / 2 ^ k) <= 2 ^ 53)
          by (apply Z.pow_le_mono_r; lia). lia. }
      replace (m / 2 ^ k + 1) with (2 ^ 53) by lia. reflexivity.
    + rewrite Z.max_l by lia. rewrite Z.pow_0_r, Z.div_1_r. lia.
Qed.

(** Rounding an exact non-negative mantissa: the result is the float whose
    value is [round_half_even m k * 2^(e + k)], [k] the excess number of
    bits, written with the carry [j] folded into the exponent. *)
Lemma binary_round_aux_exact (m e : Z) :
  0 <= m ->
  let m2 := round_half_even m (shift_of m e) in
  let E := e + shift_of m e in
  exists j m3,
    (j = 0 \/ j = 1) /\ m3 * 2 ^ j = m2 /\ 0 <= m3
    /\ binary_round_aux prec emax false m e loc_Exact
       = match m3 with
         | Z0 => S754_zero false
         | Zpos q => if E + j <=? emax - prec then S754_finite false q (E + j)
                     else S754_infinity false
         | Zneg _ => S754_nan
         end.
Proof.
  intros Hm m2 E. unfold binary_round_aux.
  destruct (shr_fexp_exact m e Hm) as (r1 & E1 & R1). rewrite E1.
  rewrite (round_of_represented r1 m (shift_of m e) R1). fold m2 E.
  assert (Hk : 0 <= shift_of m e) by (unfold shift_of; lia).
  assert (Hm2 : 0 <= m2).
  { assert (0 <= m / 2 ^ shift_of m e)
      by (apply Z.div_pos; [lia|apply Z.pow_pos_nonneg; lia]).
    unfold m2. destruct (round_half_even_cases m (shift_of m e)); lia. }
  destruct (shr_fexp_exact m2 E Hm2) as (r3 & E3 & [Q3 _]). rewrite E3.
  destruct (carry_shift m e Hm) as [Hj Hexact]. fold m2 E in Hj, Hexact.
  exists (shift_of m2 E), (shr_m r3).
  rewrite Q3. repeat split; try assumption.
  apply Z.div_pos; [lia|apply Z.pow_pos_nonneg; lia].
Qed.

(** ** The rounded integer part: scaling and monotonicity *)

Lemma shiftl_scale (a t b : Z) :
  0 <= t -> Z.shiftl (a * 2 ^ t) b = Z.shiftl a (b + t).
Proof.
  intros Ht. rewrite <- Z.shiftl_mul_pow2 by lia.
  rewrite Z.shiftl_shiftl by lia. f_equal. lia.
Qed.

Lemma shiftl_mono (a a' b : Z) : a <= a' -> Z.shiftl a b <= Z.shiftl a' b.
Proof.
  intros H. destruct (Z_lt_le_dec b 0) as [L|L].
  - rewrite !Z.shiftl_div_pow2 by lia.
    apply Z.div_le_mono; [apply Z.pow_pos_nonneg; lia|exact H].
  - rewrite !Z.shiftl_mul_pow2 by lia.
    apply Z.mul_le_mono_nonneg_r; [apply Z.pow_nonneg; lia|exact H].
Qed.

Lemma Zdigits2_unique (a x : Z) :
  0 < a -> 2 ^ (x - 1) <= a < 2 ^ x -> Zdigits2 a = x.
Proof.
  intros Ha [Hlo Hhi].
  assert (Hx : 0 <= x).
  { destruct (Z_lt_le_dec x 0) as [L|L]; [|exact L].
    rewrite (Z.pow_neg_r 2 x L) in Hhi. lia. }
  pose proof (Zdigits2_le a x ltac:(lia) Hx Hhi) as Hle.
  pose proof (Zdigits2_lt_pow a ltac:(lia)) as Hlt.
  pose proof (Zdigits2_nonneg a) as Hd.
  destruct (Z_lt_le_dec (Zdigits2 a) x) as [L|L]; [|lia].
  assert (2 ^ Zdigits2 a <= 2 ^ (x - 1)) by (apply Z.pow_le_mono_r; lia).
  lia.
Qed.

Lemma Zdigits2_mul_pow2 (m j : Z) :
  0 < m -> 0 <= j -> Zdigits2 (m * 2 ^ j) = Zdigits2 m + j.
Proof.
  intros Hm Hj.
  pose proof (Zdigits2_nonneg m) as Hd.
  pose proof (Zdigits2_lt_pow m ltac:(lia)) as Hlt.
  pose proof (Zdigits2_ge_pow m Hm) as Hge.
  assert (Hpow : 0 < 2 ^ j) by (apply Z.pow_pos_nonneg; lia).
  assert (Hd1 : 1 <= Zdigits2 m).
  { destruct (Z_lt_le_dec (Zdigits2 m) 1) as [L|L]; [|exact L].
    replace (Zdigits2 m) with 0 in Hlt by lia. cbn in Hlt. lia. }
  apply Zdigits2_unique; [lia|].
  replace (Zdigits2 m + j - 1) with (Zdigits2 m - 1 + j) by lia.
  rewrite !Z.pow_add_r by lia. nia.
Qed.

Lemma round_half_even_exact (a t : Z) :
  0 <= t -> round_half_even (a * 2 ^ t) t = a.
Proof.
  intros Ht. unfold round_half_even.
  assert (Hpow : 0 < 2 ^ t) by (apply Z.pow_pos_nonneg; lia).
  rewrite Z.mod_mul, Z.div_mul by lia.
  replace (2 * 0 ?= 2 ^ t) with Lt by (symmetry; apply Z.compare_lt_iff; lia).
  reflexivity.
Qed.

Lemma compare_scale (a b c : Z) : 0 < c -> (a * c ?= b * c) = (a ?= b).
Proof.
  intros Hc.
  destruct (Z.compare_spec a b); destruct (Z.compare_spec (a * c) (b * c));
    try reflexivity; nia.
Qed.

Lemma round_half_even_0 (a : Z) : round_half_even a 0 = a.
Proof.
  replace a with (a * 2 ^ 0) at 1 by (rewrite Z.pow_0_r; lia).
  apply round_half_even_exact. lia.
Qed.

Lemma round_half_even_scale (m k j : Z) :
  0 <= k -> 0 <= j ->
  round_half_even (m * 2 ^ j) (k + j) = round_half_even m k.
Proof.
  intros Hk Hj. unfold round_half_even.
  assert (Pk : 0 < 2 ^ k) by (apply Z.pow_pos_nonneg; lia).
  assert (Pj : 0 < 2 ^ j) by (apply Z.pow_pos_nonneg; lia).
  rewrite Z.pow_add_r by lia.
  rewrite Z.div_mul_cancel_r by lia.
  rewrite Z.mul_mod_distr_r by lia.
  replace (2 * (m mod 2 ^ k * 2 ^ j)) with (2 * (m mod 2 ^ k) * 2 ^ j) by lia.
  rewrite compare_scale by lia. reflexivity.
Qed.

Lemma round_half_even_nonneg (m k : Z) :
  0 <= m -> 0 <= k -> 0 <= round_half_even m k.
Proof.
  intros Hm Hk.
  assert (0 <= m / 2 ^ k)
    by (apply Z.div_pos; [lia|apply Z.pow_pos_nonneg; lia]).
  destruct (round_half_even_cases m k); lia.
Qed.

Lemma shift_of_nonneg (m e : Z) : 0 <= shift_of m e.
Proof. unfold shift_of. lia. Qed.

Lemma rounded_int_nonneg (m e : Z) : 0 <= m -> 0 <= rounded_int m e.
Proof.
  intros Hm. unfold rounded_int. apply Z.shiftl_nonneg.
  apply round_half_even_nonneg; [exact Hm|apply shift_of_nonneg].
Qed.

Lemma rounded_int_zero (e : Z) : rounded_int 0 e = 0.
Proof.
  unfold rounded_int.
  replace 0 with (0 * 2 ^ shift_of 0 e) at 1 by lia.
  rewrite round_half_even_exact by apply shift_of_nonneg.
  apply Z.shiftl_0_l.
Qed.

(** The rounded integer part depends on the value only, not on how it is
    split into mantissa and exponent. *)
Lemma rounded_int_scale (m e j : Z) :
  0 <= m -> 0 <= j -> rounded_int (m * 2 ^ j) (e - j) = rounded_int m e.
Proof.
  intros Hm Hj.
  destruct (Z.eq_dec m 0) as [->|Hnz].
  { rewrite Z.mul_0_l, !rounded_int_zero. reflexivity. }
  unfold rounded_int, shift_of.
  rewrite Zdigits2_mul_pow2 by lia.
  replace (Zdigits2 m + j + (e - j)) with (Zdigits2 m + e) by lia.
  set (kk := fexp (Zdigits2 m + e) - e).
  replace (fexp (Zdigits2 m + e) - (e - j)) with (kk + j) by (unfold kk; lia).
  destruct (Z_lt_le_dec kk 0) as [L|L].
  - rewrite (Z.max_l 0 kk) by lia.
    set (t := Z.max 0 (kk + j)).
    assert (Ht : 0 <= t <= j) by (unfold t; lia).
    replace (m * 2 ^ j) with (m * 2 ^ (j - t) * 2 ^ t)
      by (rewrite <- Z.mul_assoc, <- Z.pow_add_r by lia; do 2 f_equal; lia).
    rewrite round_half_even_exact by lia.
    replace m with (m * 2 ^ 0) at 2 by (rewrite Z.pow_0_r; lia).
    rewrite round_half_even_exact by lia.
    rewrite shiftl_scale by lia. f_equal. lia.
  - rewrite (Z.max_r 0 kk), (Z.max_r 0 (kk + j)) by lia.
    rewrite round_half_even_scale by lia. f_equal. lia.
Qed.

Lemma round_half_even_mono (m1 m2 k : Z) :
  0 <= k -> m1 <= m2 -> round_half_even m1 k <= round_half_even m2 k.
Proof.
  intros Hk H.
  assert (Pk : 0 < 2 ^ k) by (apply Z.pow_pos_nonneg; lia).
  pose proof (Z.div_le_mono m1 m2 (2 ^ k) Pk H) as Hq.
  pose proof (Z.div_mod m1 (2 ^ k) ltac:(lia)) as D1.
  pose proof (Z.div_mod m2 (2 ^ k) ltac:(lia)) as D2.
  pose proof (Z.mod_pos_bound m1 (2 ^ k) Pk) as B1.
  pose proof (Z.mod_pos_bound m2 (2 ^ k) Pk) as B2.
  unfold round_half_even.
  destruct (Z.eq_dec (m1 / 2 ^ k) (m2 / 2 ^ k)) as [E|E].
  - rewrite E in *.
    assert (Hr : m1 mod 2 ^ k <= m2 mod 2 ^ k) by lia.
    destruct (Z.compare_spec (2 * (m1 mod 2 ^ k)) (2 ^ k));
      destruct (Z.compare_spec (2 * (m2 mod 2 ^ k)) (2 ^ k));
      destruct (Z.even (m2 / 2 ^ k)); lia.
  - destruct (2 * (m1 mod 2 ^ k) ?= 2 ^ k);
      destruct (2 * (m2 mod 2 ^ k) ?= 2 ^ k);
      destruct (Z.even (m1 / 2 ^ k)); destruct (Z.even (m2 / 2 ^ k)); lia.
Qed.

(** Rounding to binary64 and then truncating is monotone in the value
    rounded, also across a change of binade. *)
Lemma rounded_int_mono (m1 m2 e : Z) :
  0 <= m1 <= m2 -> rounded_int m1 e <= rounded_int m2 e.
Proof.
  intros [H1 H12].
  destruct (Z.eq_dec m1 0) as [->|Hnz].
  { rewrite rounded_int_zero. apply rounded_int_nonneg. lia. }
  pose proof (Zdigits2_mono m1 m2 ltac:(lia)) as Hd.
  unfold rounded_int.
  set (k1 := shift_of m1 e). set (k2 := shift_of m2 e).
  assert (Hk1 : 0 <= k1) by apply shift_of_nonneg.
  assert (Hk12 : k1 <= k2).
  { unfold k1, k2, shift_of. rewrite !fexp_eq. lia. }
  replace (e + k2) with (e + k1 + (k2 - k1)) by lia.
  rewrite <- (shiftl_scale (round_half_even m2 k2) (k2 - k1) (e + k1)) by lia.
  apply shiftl_mono.
  destruct (Z.eq_dec k1 k2) as [E|E].
  - rewrite <- E, Z.sub_diag, Z.pow_0_r, Z.mul_1_r.
    apply round_half_even_mono; lia.
  - assert (Hk2 : k2 = Zdigits2 m2 - 53 /\ Zdigits2 m1 <= Zdigits2 m2 - 1).
    { unfold k1, k2, shift_of in *. rewrite !fexp_eq in *. lia. }
    destruct Hk2 as [Hk2 Hd1].
    assert (P1 : 0 < 2 ^ k1) by (apply Z.pow_pos_nonneg; lia).
    assert (P2 : 0 < 2 ^ k2) by (apply Z.pow_pos_nonneg; lia).
    assert (P12 : 0 < 2 ^ (k2 - k1)) by (apply Z.pow_pos_nonneg; lia).
    assert (Hlow : 2 ^ 52 <= m2 / 2 ^ k2).
    { apply Z.div_le_lower_bound; [lia|].
      rewrite <- Z.pow_add_r by lia.
      pose proof (Zdigits2_ge_pow m2 ltac:(lia)) as G.
      replace (k2 + 52) with (Zdigits2 m2 - 1) by lia. exact G. }
    assert (Hup : m1 / 2 ^ k1 < 2 ^ (52 + (k2 - k1))).
    { apply Z.div_lt_upper_bound; [lia|].
      rewrite <- Z.pow_add_r by lia.
      pose proof (Zdigits2_lt_pow m1 ltac:(lia)) as G.
      assert (2 ^ Zdigits2 m1 <= 2 ^ (k1 + (52 + (k2 - k1))))
        by (apply Z.pow_le_mono_r; lia).
      lia. }
    rewrite Z.pow_add_r in Hup by lia.
    assert (R1 : round_half_even m1 k1 <= m1 / 2 ^ k1 + 1)
      by (destruct (round_half_even_cases m1 k1); lia).
    assert (R2 : m2 / 2 ^ k2 <= round_half_even m2 k2)
      by (destruct (round_half_even_cases m2 k2); lia).
    nia.
Qed.

(** ** What [int(x * p)] is, for a product of two non-negative floats *)

(** The integer part of a rounded exact mantissa, read off the float. *)
Lemma int_of_rounded (m e : Z) :
  0 <= m -> e + shift_of m e + 1 <= emax - prec ->
  exists x, binary_round_aux prec emax false m e loc_Exact = x
            /\ int_of_float x = Ok (rounded_int m e)
            /\ float_floor x = Some (rounded_int m e)
            /\ (x = S754_zero false /\ round_half_even m (shift_of m e) = 0
                \/ exists q j, x = S754_finite false q (e + shift_of m e + j)
                               /\ 0 <= j
                               /\ Zpos q * 2 ^ j
                                  = round_half_even m (shift_of m e)).
Proof.
  intros Hm Hfit.
  destruct (binary_round_aux_exact m e Hm) as (j & m3 & Hj & Hm3 & P3 & ->).
  unfold rounded_int. rewrite <- Hm3.
  destruct m3 as [|q|q]; [| |lia].
  - eexists. split; [reflexivity|]. rewrite Z.mul_0_l, Z.shiftl_0_l.
    repeat split. left. split; reflexivity.
  - assert (Hle : (e + shift_of m e + j <=? emax - prec) = true)
      by (apply Z.leb_le; lia).
    rewrite Hle. eexists. split; [reflexivity|].
    rewrite shiftl_scale by lia.
    cbn [int_of_float float_floor cond_Zopp].
    repeat split. right. exists q, j. repeat split; lia.
Qed.

(** The float a list length converts to, as mantissa and exponent: its
    value is [round_half_even n k * 2^k] with [k = shift_of n 0]. *)
Lemma float_of_int_value (n : Z) :
  0 < n <= sys_maxsize ->
  exists q E j t,
    float_of_int n = Ok (S754_finite false q E)
    /\ 0 <= j /\ 0 <= t
    /\ Zpos q * 2 ^ j = round_half_even n (shift_of n 0) * 2 ^ t
    /\ E - j = shift_of n 0 - t
    /\ Zpos (digits2_pos q) <= 64 /\ E <= 21.
Proof.
  intros Hn.
  destruct (float_of_int_length n Hn) as (x & Hx & Hb).
  destruct Hn as [Hpos Hmax]. destruct n as [|pn|pn]; try lia.
  assert (Hd : Zdigits2 (Zpos pn) <= 63).
  { apply Zdigits2_le; try lia. unfold sys_maxsize in Hmax. lia. }
  pose proof (Zdigits2_ge_pow (Zpos pn) ltac:(lia)) as Hge.
  assert (Hd1 : 1 <= Zdigits2 (Zpos pn)) by (cbn [Zdigits2]; lia).
  revert Hx.
  unfold float_of_int, binary_normalize, binary_round, shl_align.
  cbn [Zdigits2] in *. set (d := Z.pos (digits2_pos pn)) in *.
  assert (Hcase : exists mz ez t,
             (match fexp (d + 0) - 0 with
              | Z.neg s => (Pos.iter xO pn s, fexp (d + 0))
              | _ => (pn, 0)
              end) = (mz, ez)
             /\ 0 <= t /\ Zpos mz = Zpos pn * 2 ^ t /\ ez = - t
             /\ (t = 0 /\ 53 <= d \/ d + t = 53)).
  { destruct (fexp (d + 0) - 0) as [|s|s] eqn:E.
    - exists pn, 0, 0. rewrite fexp_eq in E. repeat split; try lia.
    - exists pn, 0, 0. rewrite fexp_eq in E. repeat split; try lia.
    - exists (Pos.iter xO pn s), (fexp (d + 0)), (Zpos s).
      split; [reflexivity|]. split; [lia|].
      rewrite fexp_eq in *.
      split; [|lia].
      clear. induction s using Pos.peano_ind.
      + cbn. lia.
      + rewrite Pos.iter_succ, Pos2Z.inj_xO, IHs, Pos2Z.inj_succ.
        rewrite Z.pow_succ_r by lia. lia. }
  destruct Hcase as (mz & ez & t & -> & Ht & Hmz & Hez & Hshape).
  assert (Hdz : Zdigits2 (Zpos mz) = d + t).
  { rewrite Hmz. unfold d. apply (Zdigits2_mul_pow2 (Zpos pn)); lia. }
  assert (Hkz : shift_of (Zpos mz) ez = Z.max 0 (d - 53)
                /\ shift_of (Zpos pn) 0 = Z.max 0 (d - 53)).
  { unfold shift_of. rewrite Hdz. cbn [Zdigits2]. fold d.
    rewrite !fexp_eq. lia. }
  destruct Hkz as [Hkz Hk0].
  destruct (int_of_rounded (Zpos mz) ez ltac:(lia)) as (y & Hy & _ & _ & Hsh).
  { rewrite Hkz. unfold prec, emax. lia. }
  rewrite Hy. intros Hx.
  destruct Hsh as [[-> Hzero]|(q & j & -> & Hj & Hq)].
  - exfalso. rewrite Hkz in Hzero.
    destruct Hshape as [[T L]|T].
    + destruct (round_half_even_cases (Zpos mz) (Z.max 0 (d - 53))) as [R|R];
        rewrite Hzero in R.
      * assert (2 ^ 52 <= Zpos mz / 2 ^ Z.max 0 (d - 53)).
        { apply Z.div_le_lower_bound; [apply Z.pow_pos_nonneg; lia|].
          rewrite <- Z.pow_add_r by lia. rewrite Hmz, T, Z.pow_0_r, Z.mul_1_r.
          rewrite Z.max_r by lia.
          replace (d - 53 + 52) with (d - 1) by lia. exact Hge. }
        lia.
      * assert (0 <= Zpos mz / 2 ^ Z.max 0 (d - 53))
          by (apply Z.div_pos; [lia|apply Z.pow_pos_nonneg; lia]).
        lia.
    + rewrite Z.max_l in Hzero by lia.
      rewrite round_half_even_0 in Hzero. lia.
  - injection Hx as <-.
    destruct Hb as [Hb|(q' & E' & Hb & Dq & Eq)]; [discriminate|].
    injection Hb as <- <-.
    exists q, (ez + shift_of (Zpos mz) ez + j), j, t.
    split; [reflexivity|].
    repeat split; try lia.
    + rewrite Hq, Hkz, Hk0.
      destruct Hshape as [[T L]|T].
      * subst t. rewrite Hmz, Z.pow_0_r, !Z.mul_1_r. reflexivity.
      * rewrite Z.max_l by lia. rewrite !round_half_even_0. exact Hmz.
Qed.

(** [int(n * p)] for a list length [n] and a positive float [p] below 2,
    of mantissa [mp] and exponent [ep]: the conversions succeed and give
    [rank_of n mp ep]. *)
Lemma int_of_product (n : Z) (mp : positive) (ep : Z) :
  0 < n <= sys_maxsize -> Zpos (digits2_pos mp) <= 53 -> ep <= -52 ->
  exists x, int_mul_float n (S754_finite false mp ep) = Ok x
            /\ int_of_float x = Ok (rank_of n (Zpos mp) ep)
            /\ float_floor x = Some (rank_of n (Zpos mp) ep).
Proof.
  intros Hn Dp Ep.
  destruct (float_of_int_value n Hn)
    as (q & E & j & t & Hx & Hj & Ht & Hval & Hexp & Dq & HE).
  unfold int_mul_float. rewrite Hx. unfold float_mul, SFmul. cbn [xorb].
  pose proof (Zdigits2_mul q mp) as Dm. cbn [Zdigits2] in Dm.
  destruct (int_of_rounded (Zpos (q * mp)) (E + ep) ltac:(lia))
    as (x & Hr & Hi & Hf & _).
  { unfold shift_of. cbn [Zdigits2]. rewrite fexp_eq. unfold emax, prec. lia. }
  assert (Hrank : rounded_int (Zpos (q * mp)) (E + ep)
                  = rank_of n (Zpos mp) ep).
  { unfold rank_of.
    rewrite <- (rounded_int_scale (Zpos (q * mp)) (E + ep) j) by lia.
    rewrite <- (rounded_int_scale
                  (round_half_even n (shift_of n 0) * Zpos mp)
                  (shift_of n 0 + ep) t).
    - f_equal; [|lia]. rewrite Pos2Z.inj_mul.
      replace (Zpos q * Zpos mp * 2 ^ j) with (Zpos q * 2 ^ j * Zpos mp) by lia.
      rewrite Hval. lia.
    - apply Z.mul_nonneg_nonneg; [|lia].
      apply round_half_even_nonneg; [lia|apply shift_of_nonneg].
    - exact Ht. }
  exists x. rewrite Hr, Hi, Hf, Hrank. auto.
Qed.

Lemma rank_of_nonneg (n mp ep : Z) : 0 <= n -> 0 <= mp -> 0 <= rank_of n mp ep.
Proof.
  intros Hn Hp. unfold rank_of. apply rounded_int_nonneg.
  apply Z.mul_nonneg_nonneg; [|exact Hp].
  apply round_half_even_nonneg; [exact Hn|apply shift_of_nonneg].
Qed.

(** Below [2^53] the count is converted exactly. *)
Lemma rank_of_small (n mp ep : Z) :
  0 < n < 2 ^ 53 -> rank_of n mp ep = rounded_int (n * mp) ep.
Proof.
  intros [H0 H1]. unfold rank_of.
  assert (Hd : Zdigits2 n <= 53) by (apply Zdigits2_le; lia).
  assert (Hs : shift_of n 0 = 0).
  { unfold shift_of. rewrite fexp_eq.
    pose proof (Zdigits2_nonneg n). lia. }
  rewrite Hs, round_half_even_0. reflexivity.
Qed.

(** [percentile] for a positive [p] below 2, in closed form. *)
Lemma percentile_at (mp : positive) (ep : Z) (data : list float) :
  data <> [] -> len data <= sys_maxsize ->
  Zpos (digits2_pos mp) <= 53 -> ep <= -52 ->
  percentile (S754_finite false mp ep) data
  = (Ok (nth (Z.to_nat (Z.min (rank_of (len data) (Zpos mp) ep)
                              (len data - 1)))
             (list_sort data) S754_nan),
     list_sort data).
Proof.
  intros Hne Hmax Dp Ep.
  pose proof (len_pos data Hne) as Hpos.
  destruct (int_of_product (len data) mp ep ltac:(lia) Dp Ep)
    as (x & Hx & Hi & _).
  pose proof (rank_of_nonneg (len data) (Zpos mp) ep ltac:(lia) ltac:(lia)).
  unfold percentile, bind, modify, gets, lift.
  rewrite len_list_sort, Hx, Hi.
  rewrite (getitem_in_range _ _ S754_nan); [reflexivity|].
  rewrite len_list_sort. lia.
Qed.

(** [percentile] for [p = 0.0] or [-0.0]. *)
Lemma percentile_at_zero (s : bool) (data : list float) :
  data <> [] -> len data <= sys_maxsize ->
  percentile (S754_zero s) data
  = (Ok (nth 0 (list_sort data) S754_nan), list_sort data).
Proof.
  intros Hne Hmax.
  pose proof (len_pos data Hne) as Hpos.
  destruct (float_of_int_value (len data) ltac:(lia)) as (q & E & j & t & Hx & _).
  unfold percentile, bind, modify, gets, lift, int_mul_float.
  rewrite len_list_sort, Hx. cbn [float_mul SFmul int_of_float].
  rewrite (getitem_in_range _ _ S754_nan) by (rewrite len_list_sort; lia).
  replace (Z.min 0 (len data - 1)) with 0 by lia. reflexivity.
Qed.

(** In an ascending list of numbers, items at later positions are larger
    or equal. *)
Lemma ascending_nth_mono (s : list float) (i j : nat) (d : float) :
  numbers s -> ascending s -> (i <= j < List.length s)%nat ->
  float_le (nth i s d) (nth j s d) = true.
Proof.
  unfold ascending. intros Hn Hs. revert i j.
  induction Hs as [|a r Sr IH Fa]; intros i j [Hij Hj];
    cbn [List.length] in Hj; [lia|].
  inversion Hn as [|? ? Ha Hr]; subst.
  destruct i as [|i], j as [|j]; cbn [nth]; try lia.
  - apply float_le_refl, Ha.
  - rewrite Forall_forall in Fa. apply Fa, nth_In. lia.
  - apply IH; [exact Hr|lia].
Qed.

(** The shape of a fraction in [0, 1), canonical exponent included. *)
Lemma fraction_shape (p : float) :
  is_fraction p = true ->
  (exists s, p = S754_zero s)
  \/ exists m e, p = S754_finite false m e
                 /\ Zpos (digits2_pos m) <= 53 /\ e <= -52
                 /\ fexp (Zpos (digits2_pos m) + e) = e.
Proof.
  intros Hp. destruct (fraction_cases p Hp) as [Hz|(m & e & -> & D & E)];
    [left; exact Hz|].
  right. exists m, e. repeat split; try assumption.
  unfold is_fraction, is_binary64 in Hp. cbn [valid_binary] in Hp.
  apply andb_prop in Hp as [Hp _]. apply andb_prop in Hp as [Hv _].
  unfold bounded, canonical_mantissa in Hv.
  apply andb_prop in Hv as [Hc _]. apply Z.eqb_eq in Hc. exact Hc.
Qed.

(** The rank does not decrease when the fraction grows. *)
Lemma rank_of_mono (n : Z) (mp mq : positive) (ep eq : Z) :
  0 <= n ->
  fexp (Zpos (digits2_pos mp) + ep) = ep ->
  fexp (Zpos (digits2_pos mq) + eq) = eq ->
  float_le (S754_finite false mp ep) (S754_finite false mq eq) = true ->
  rank_of n (Zpos mp) ep <= rank_of n (Zpos mq) eq.
Proof.
  intros Hn Cp Cq Hle. unfold rank_of.
  set (F := round_half_even n (shift_of n 0)).
  assert (HF : 0 <= F)
    by (apply round_half_even_nonneg; [exact Hn|apply shift_of_nonneg]).
  set (e0 := shift_of n 0).
  assert (Hord : ep < eq \/ ep = eq /\ Zpos mp <= Zpos mq).
  { revert Hle. unfold float_le, SFleb, SFcompare.
    destruct (Z.compare_spec ep eq) as [E|E|E]; try discriminate; [|lia].
    change (PosDef.Pos.compare_cont Eq mp mq) with (Pos.compare mp mq).
    destruct (Pos.compare_spec mp mq); try discriminate; lia. }
  destruct Hord as [Hlt|[-> Hm]].
  - rewrite <- (rounded_int_scale (F * Zpos mq) (e0 + eq) (eq - ep)) by nia.
    replace (e0 + eq - (eq - ep)) with (e0 + ep) by lia.
    apply rounded_int_mono. split; [nia|].
    rewrite fexp_eq in Cp, Cq.
    assert (Dq : Zpos (digits2_pos mq) = 53) by lia.
    pose proof (Zdigits2_ge_pow (Zpos mq) ltac:(lia)) as Gq.
    pose proof (Zdigits2_lt_pow (Zpos mp) ltac:(lia)) as Gp.
    cbn [Zdigits2] in Gq, Gp. rewrite Dq in Gq.
    assert (2 ^ Zpos (digits2_pos mp) <= 2 ^ 53)
      by (apply Z.pow_le_mono_r; lia).
    assert (2 ^ 1 <= 2 ^ (eq - ep)) by (apply Z.pow_le_mono_r; lia).
    assert (Zpos mp <= Zpos mq * 2 ^ (eq - ep)) by nia.
    nia.
  - apply rounded_int_mono. split; nia.
Qed.

(** Values returned for two ordered fractions are ordered. *)
Lemma percentile_monotone_aux (data : list float) (p q : float) :
  data <> [] -> len data <= sys_maxsize -> numbers data ->
  is_fraction p = true -> is_fraction q = true -> float_le p q = true ->
  exists v w, fst (percentile p data) = Ok v
              /\ fst (percentile q data) = Ok w
              /\ float_le v w = true.
Proof.
  intros Hne Hmax Hnum Hp Hq Hle.
  pose proof (len_pos data Hne) as Hpos.
  assert (Hs : numbers (list_sort data))
    by (apply (numbers_perm data); [apply list_sort_perm|exact Hnum]).
  pose proof (list_sort_ascending data Hnum) as Ha.
  pose proof (len_list_sort data) as Hl. unfold len in Hl, Hpos.
  destruct (fraction_shape p Hp) as [[s ->]|(mp & ep & -> & Dp & Ep & Cp)].
  - rewrite (percentile_at_zero s data Hne Hmax).
    destruct (percentile_returns q data Hne Hmax Hq) as (w & Hw & Hin).
    rewrite Hw. exists (nth 0 (list_sort data) S754_nan), w.
    repeat split.
    apply (Permutation_in _ (list_sort_perm data)) in Hin.
    destruct (In_nth _ _ S754_nan Hin) as (j & Hj & <-).
    apply ascending_nth_mono; [exact Hs|exact Ha|lia].
  - destruct (fraction_shape q Hq) as [[s ->]|(mq & eq & -> & Dq & Eq & Cq)];
      [discriminate|].
    rewrite (percentile_at mp ep data Hne Hmax Dp Ep).
    rewrite (percentile_at mq eq data Hne Hmax Dq Eq).
    eexists; eexists. split; [reflexivity|]. split; [reflexivity|].
    pose proof (rank_of_mono (len data) mp mq ep eq ltac:(unfold len; lia)
                             Cp Cq Hle) as Hr.
    pose proof (rank_of_nonneg (len data) (Zpos mp) ep
                  ltac:(unfold len; lia) ltac:(lia)) as H0.
    apply ascending_nth_mono; [exact Hs|exact Ha|].
    unfold len in *. lia.
Qed.


(** X2 -- [percentile] grows with the fraction: on a non-empty list of
    numbers, for fractions [p <= q] in [0, 1), the value returned for [p]
    is at most the one returned for [q]. *)
Theorem percentile_monotone (data : list float) (p q : float) :
  data <> [] -> len data <= sys_maxsize -> numbers data ->
  is_fraction p = true -> is_fraction q = true -> float_le p q = true ->
  exists v w, fst (percentile p data) = Ok v
              /\ fst (percentile q data) = Ok w
              /\ float_le v w = true.
Proof. apply percentile_monotone_aux. Qed.

Lemma percentile_monotone_witness :
  exists v w,
    fst (percentile p50 [ms 30; ms 10; ms 50; ms 20; ms 40]) = Ok v
    /\ fst (percentile p95 [ms 30; ms 10; ms 50; ms 20; ms 40]) = Ok w
    /\ float_le v w = true.
Proof.
  apply (percentile_monotone [ms 30; ms 10; ms 50; ms 20; ms 40] p50 p95).
  - discriminate.
  - vm_compute. discriminate.
  - repeat constructor.
  - reflexivity.
  - reflexivity.
  - reflexivity.
Defined.

(** X1 -- the P50 of fewer than [2^53] numbers is the item at position
    [n div 2] of the sorted samples: the middle one for odd [n], the upper
    of the two middle ones for even [n], never their mean. *)
Theorem median_is_upper_middle (data : list float) :
  data <> [] -> len data < 2 ^ 53 -> numbers data ->
  percentile p50 data
  = (Ok (nth (Z.to_nat (len data / 2)) (list_sort data) S754_nan),
     list_sort data).
Proof.
  intros Hne Hmax _.
  pose proof (len_pos data Hne) as Hpos.
  change p50 with (S754_finite false 4503599627370496 (-53)).
  rewrite percentile_at;
    [|exact Hne|unfold sys_maxsize; lia|vm_compute; discriminate|lia].
  rewrite rank_of_small by lia.
  change (Zpos 4503599627370496) with (2 ^ 52).
  change (-53) with (-1 - 52).
  rewrite (rounded_int_scale (len data) (-1) 52) by lia.
  unfold rounded_int.
  assert (Hs : shift_of (len data) (-1) = 0).
  { unfold shift_of. rewrite fexp_eq.
    assert (Zdigits2 (len data) <= 53) by (apply Zdigits2_le; lia).
    pose proof (Zdigits2_nonneg (len data)). lia. }
  rewrite Hs, round_half_even_0.
  rewrite Z.shiftl_div_pow2 by lia. cbn [Z.add Z.opp].
  change (2 ^ 1) with 2.
  assert (len data / 2 < len data).
  { apply Z.div_lt_upper_bound; lia. }
  rewrite Z.min_l by lia. reflexivity.
Qed.

Lemma median_is_upper_middle_witness :
  percentile p50 [ms 4; ms 1; ms 3; ms 2]
  = (Ok (nth (Z.to_nat (len [ms 4; ms 1; ms 3; ms 2] / 2))
             (list_sort [ms 4; ms 1; ms 3; ms 2]) S754_nan),
     list_sort [ms 4; ms 1; ms 3; ms 2]).
Proof.
  apply (median_is_upper_middle [ms 4; ms 1; ms 3; ms 2]).
  - discriminate.
  - vm_compute. reflexivity.
  - repeat constructor.
Defined.

(** X4 -- at the ends of the range: on numbers, [percentile(data, 0.0)]
    returns a smallest sample and [percentile(data, 1.0)], where the
    product equals [len(data)] and is clamped to the last position, a
    largest one. *)
Theorem percentile_extremes (data : list float) :
  data <> [] -> len data < 2 ^ 53 -> numbers data ->
  exists lo hi,
    fst (percentile float_zero data) = Ok lo
    /\ fst (percentile float_one data) = Ok hi
    /\ In lo data /\ In hi data
    /\ forall x, In x data -> float_le lo x = true /\ float_le x hi = true.
Proof.
  intros Hne Hmax Hnum.
  pose proof (len_pos data Hne) as Hpos.
  assert (Hs : numbers (list_sort data))
    by (apply (numbers_perm data); [apply list_sort_perm|exact Hnum]).
  pose proof (list_sort_ascending data Hnum) as Ha.
  pose proof (len_list_sort data) as Hl.
  unfold float_zero.
  rewrite (percentile_at_zero false data Hne)
    by (unfold sys_maxsize; lia).
  change float_one with (S754_finite false 4503599627370496 (-52)).
  rewrite percentile_at;
    [|exact Hne|unfold sys_maxsize; lia|vm_compute; discriminate|lia].
  rewrite rank_of_small by lia.
  change (Zpos 4503599627370496) with (2 ^ 52).
  change (-52) with (0 - 52).
  rewrite (rounded_int_scale (len data) 0 52) by lia.
  unfold rounded_int.
  assert (Hsh : shift_of (len data) 0 = 0).
  { unfold shift_of. rewrite fexp_eq.
    assert (Zdigits2 (len data) <= 53) by (apply Zdigits2_le; lia).
    pose proof (Zdigits2_nonneg (len data)). lia. }
  rewrite Hsh, round_half_even_0. cbn [Z.add]. rewrite Z.shiftl_0_r.
  rewrite Z.min_r by lia. cbn [fst].
  eexists; eexists. split; [reflexivity|]. split; [reflexivity|].
  unfold len in *.
  assert (Hin : forall i, (i < List.length (list_sort data))%nat ->
                          In (nth i (list_sort data) S754_nan) data).
  { intros i Hi.
    apply (Permutation_in _ (Permutation_sym (list_sort_perm data))).
    apply nth_In, Hi. }
  split; [apply Hin; lia|]. split; [apply Hin; lia|].
  intros x Hx.
  apply (Permutation_in _ (list_sort_perm data)) in Hx.
  destruct (In_nth _ _ S754_nan Hx) as (j & Hj & <-).
  split; apply ascending_nth_mono; try assumption; lia.
Qed.

Lemma percentile_extremes_witness :
  exists lo hi,
    fst (percentile float_zero [ms 4; ms 1; ms 3]) = Ok lo
    /\ fst (percentile float_one [ms 4; ms 1; ms 3]) = Ok hi
    /\ In lo [ms 4; ms 1; ms 3] /\ In hi [ms 4; ms 1; ms 3]
    /\ forall x, In x [ms 4; ms 1; ms 3] ->
                 float_le lo x = true /\ float_le x hi = true.
Proof.
  apply (percentile_extremes [ms 4; ms 1; ms 3]).
  - discriminate.
  - vm_compute. reflexivity.
  - repeat constructor.
Defined.

(** X3 -- the report is ordered: when the file holds numbers, the three
    values printed satisfy P50 <= P95 <= P99. *)
Theorem report_is_ordered (prog path : string) (fs : filesystem)
        (d : list float) :
  parse_latencies fs path = Ok d -> d <> [] -> len d <= sys_maxsize ->
  numbers d ->
  exists v50 v95 v99,
    run [prog; path] fs
    = Outcome [report_line "P50" v50; report_line "P95" v95;
               report_line "P99" v99] 0
    /\ float_le v50 v95 = true /\ float_le v95 v99 = true.
Proof.
  intros Hd Hne Hmax Hnum.
  destruct (main_report prog path fs (World [] []) d Hd Hne Hmax)
    as (v50 & v95 & v99 & H50 & H95 & H99 & Hm).
  exists v50, v95, v99. unfold run. rewrite Hm.
  split; [reflexivity|].
  destruct (percentile_monotone_aux d p50 p95 Hne Hmax Hnum)
    as (a & b & Ha & Hb & Hab); try reflexivity.
  destruct (percentile_monotone_aux d p95 p99 Hne Hmax Hnum)
    as (b' & c & Hb' & Hc & Hbc); try reflexivity.
  rewrite H50 in Ha. rewrite H95 in Hb, Hb'. rewrite H99 in Hc.
  injection Ha as <-. injection Hb as <-. injection Hb' as <-.
  injection Hc as <-. split; assumption.
Qed.

Lemma report_is_ordered_witness :
  exists v50 v95 v99,
    run [script_name; "latency.txt"] five_line_file
    = Outcome [report_line "P50" v50; report_line "P95" v95;
               report_line "P99" v99] 0
    /\ float_le v50 v95 = true /\ float_le v95 v99 = true.
Proof.
  apply (report_is_ordered script_name "latency.txt" five_line_file
                           [ms 10; ms 20; ms 30; ms 40; ms 50]).
  - vm_compute. reflexivity.
  - discriminate.
  - vm_compute. discriminate.
  - repeat constructor.
Defined.

Lemma float_le_not_gt (x y : float) :
  float_le x y = true -> float_lt y x = false.
Proof. float_order. Qed.

Lemma ascending_no_descent (l : list float) : ascending l -> no_descent l.
Proof.
  unfold ascending, no_descent.
  induction 1 as [|a t St IH Fa]; constructor; [exact IH|].
  destruct Fa as [|b r Hab _]; constructor. apply float_le_not_gt, Hab.
Qed.

(** X5 -- [percentile] reorders the caller's list: for a list of numbers,
    whatever [p] is and whether the call returns or raises, the list holds
    afterwards the same items in ascending order; the order in which the
    samples were read is kept only if it was ascending already, and a
    further call, with any fraction, leaves the list as it then is. *)
Theorem percentile_sorts_in_place (p : float) (data : list float) :
  numbers data ->
  Permutation data (snd (percentile p data))
  /\ len (snd (percentile p data)) = len data
  /\ ascending (snd (percentile p data))
  /\ (snd (percentile p data) = data <-> ascending data)
  /\ (forall q, snd (percentile q (snd (percentile p data)))
                = snd (percentile p data)).
Proof.
  intros Hnum. rewrite percentile_state.
  pose proof (list_sort_ascending data Hnum) as Ha.
  split; [apply list_sort_perm|]. split; [apply len_list_sort|].
  split; [exact Ha|]. split.
  - split.
    + intros E. rewrite <- E. exact Ha.
    + intros Hd. apply list_sort_fixed, ascending_no_descent, Hd.
  - intros q. rewrite percentile_state. apply list_sort_idempotent.
Qed.

Lemma percentile_sorts_in_place_witness :
  Permutation [ms 3; ms 1; ms 2] (snd (percentile S754_nan [ms 3; ms 1; ms 2]))
  /\ len (snd (percentile S754_nan [ms 3; ms 1; ms 2]))
     = len [ms 3; ms 1; ms 2]
  /\ ascending (snd (percentile S754_nan [ms 3; ms 1; ms 2]))
  /\ (snd (percentile S754_nan [ms 3; ms 1; ms 2]) = [ms 3; ms 1; ms 2]
      <-> ascending [ms 3; ms 1; ms 2])
  /\ (forall q, snd (percentile q (snd (percentile S754_nan
                                                  [ms 3; ms 1; ms 2])))
                = snd (percentile S754_nan [ms 3; ms 1; ms 2])).
Proof.
  apply (percentile_sorts_in_place S754_nan [ms 3; ms 1; ms 2]).
  repeat constructor.
Defined.

(** X10 -- every value in the report is the value of a valid line of the
    file: nothing is interpolated or averaged on the way from the file to
    the output. *)
Theorem report_values_come_from_file (prog path text : string)
        (fs : filesystem) :
  fs path = Some text ->
  valid_values (readlines text) <> [] ->
  len (valid_values (readlines text)) <= sys_maxsize ->
  exists l50 l95 l99,
    (In l50 (readlines text) /\ valid_line l50 = true)
    /\ (In l95 (readlines text) /\ valid_line l95 = true)
    /\ (In l99 (readlines text) /\ valid_line l99 = true)
    /\ run [prog; path] fs
       = Outcome [report_line "P50" (line_value l50);
                  report_line "P95" (line_value l95);
                  report_line "P99" (line_value l99)] 0.
Proof.
  intros Hfs Hne Hmax.
  assert (Hparse : parse_latencies fs path = Ok (valid_values (readlines text))).
  { unfold parse_latencies. rewrite Hfs. apply parse_lines_spec. }
  assert (Hline : forall p, is_fraction p = true ->
            exists l, (In l (readlines text) /\ valid_line l = true)
                      /\ fst (percentile p (valid_values (readlines text)))
                         = Ok (line_value l)).
  { intros p Hp.
    destruct (percentile_returns p _ Hne Hmax Hp) as (v & Hv & Hin).
    unfold valid_values in Hin. apply in_map_iff in Hin as (l & <- & Hl).
    apply filter_In in Hl. exists l. split; [exact Hl|].
    rewrite Hv. reflexivity. }
  destruct (Hline p50 is_fraction_p50) as (l50 & I50 & E50).
  destruct (Hline p95 is_fraction_p95) as (l95 & I95 & E95).
  destruct (Hline p99 is_fraction_p99) as (l99 & I99 & E99).
  destruct (main_report prog path fs (World [] []) _ Hparse Hne Hmax)
    as (v50 & v95 & v99 & H50 & H95 & H99 & Hm).
  rewrite E50 in H50. rewrite E95 in H95. rewrite E99 in H99.
  injection H50 as <-. injection H95 as <-. injection H99 as <-.
  exists l50, l95, l99. unfold run. rewrite Hm. auto.
Qed.

Lemma report_values_come_from_file_witness :
  exists l50 l95 l99,
    (In l50 (readlines (text_of_lines mixed_lines)) /\ valid_line l50 = true)
    /\ (In l95 (readlines (text_of_lines mixed_lines))
        /\ valid_line l95 = true)
    /\ (In l99 (readlines (text_of_lines mixed_lines))
        /\ valid_line l99 = true)
    /\ run [script_name; "latency.txt"] mixed_file
       = Outcome [report_line "P50" (line_value l50);
                  report_line "P95" (line_value l95);
                  report_line "P99" (line_value l99)] 0.
Proof.
  apply (report_values_come_from_file script_name "latency.txt"
           (text_of_lines mixed_lines) mixed_file).
  - reflexivity.
  - vm_compute. discriminate.
  - vm_compute. discriminate.
Defined.

(** X6 -- how a run ends, by cause, when every file that opens also
    reads and decodes as text and standard output takes the lines:
    [SystemExit(1)] exactly when the argument count is not one, [OSError]
    exactly when the file cannot be opened, [IndexError] exactly when the
    file has no valid line, and completion exactly when one argument names
    a file with at least one valid line; the lines that are not valid play
    no part. *)
Theorem run_ends_by_cause (argv : list string) (fs : filesystem) :
  (forall d, parse_latencies fs (nth 1 argv EmptyString) = Ok d ->
             len d <= sys_maxsize) ->
  (fst (main argv fs (World [] [])) = Raise (SystemExit 1)
   <-> len argv <> 2)
  /\ (fst (main argv fs (World [] [])) = Raise OSError
      <-> len argv = 2 /\ fs (nth 1 argv EmptyString) = None)
  /\ (fst (main argv fs (World [] [])) = Raise IndexError
      <-> len argv = 2
          /\ exists text, fs (nth 1 argv EmptyString) = Some text
                          /\ valid_values (readlines text) = [])
  /\ (fst (main argv fs (World [] [])) = Ok tt
      <-> len argv = 2
          /\ exists text line, fs (nth 1 argv EmptyString) = Some text
                               /\ In line (readlines text)
                               /\ valid_line line = true).
Proof.
  intros Hmax.
  destruct (Z.eq_dec (len argv) 2) as [H|H].
  - destruct (two_arguments argv H) as (prog & path & ->).
    cbn [nth] in *.
    destruct (fs path) as [text|] eqn:Hfs.
    + assert (Hparse : parse_latencies fs path
                       = Ok (valid_values (readlines text))).
      { unfold parse_latencies. rewrite Hfs. apply parse_lines_spec. }
      destruct (valid_values (readlines text)) as [|v r] eqn:Hv.
      * rewrite (main_empty_data prog path fs _ Hparse). cbn [fst].
        split; [|split; [|split]]; split.
        -- discriminate.
        -- intros Hc. contradiction.
        -- discriminate.
        -- intros [_ E]. discriminate.
        -- intros _. split; [exact H|]. exists text. auto.
        -- reflexivity.
        -- discriminate.
        -- intros [_ (t & line & E & Hin & Hval)]. exfalso.
           injection E as <-.
           assert (Hi : In (line_value line) (valid_values (readlines text))).
           { unfold valid_values. apply in_map, filter_In. auto. }
           rewrite Hv in Hi. exact Hi.
      * destruct (main_report prog path fs (World [] []) _ Hparse)
          as (v50 & v95 & v99 & _ & _ & _ & Hm);
          [discriminate|apply Hmax; exact Hparse|].
        rewrite Hm. cbn [fst].
        split; [|split; [|split]]; split.
        -- discriminate.
        -- intros Hc. contradiction.
        -- discriminate.
        -- intros [_ E]. discriminate.
        -- discriminate.
        -- intros [_ (t & E & Habs)]. injection E as <-.
           rewrite Hv in Habs. discriminate.
        -- intros _. split; [exact H|].
           assert (Hi : In v (valid_values (readlines text)))
             by (rewrite Hv; left; reflexivity).
           unfold valid_values in Hi.
           apply in_map_iff in Hi as (line & _ & Hl).
           apply filter_In in Hl as [Hin Hval].
           exists text, line. auto.
        -- reflexivity.
    + assert (Hparse : parse_latencies fs path = Raise OSError).
      { unfold parse_latencies. rewrite Hfs. reflexivity. }
      rewrite (main_no_data prog path fs _ _ Hparse). cbn [fst].
      split; [|split; [|split]]; split.
      * discriminate.
      * intros Hc. contradiction.
      * intros _. auto.
      * reflexivity.
      * discriminate.
      * intros [_ (t & E & _)]. discriminate.
      * discriminate.
      * intros [_ (t & l & E & _)]. discriminate.
  - rewrite (main_usage argv fs _ H). cbn [fst].
    split; [|split; [|split]]; split.
    + intros _. exact H.
    + reflexivity.
    + discriminate.
    + intros [Hc _]. contradiction.
    + discriminate.
    + intros [Hc _]. contradiction.
    + discriminate.
    + intros [Hc _]. contradiction.
Qed.

Lemma run_ends_by_cause_witness :
  (fst (main [script_name; "latency.txt"] mixed_file (World [] []))
   = Raise (SystemExit 1)
   <-> len [script_name; "latency.txt"] <> 2)
  /\ (fst (main [script_name; "latency.txt"] mixed_file (World [] []))
      = Raise OSError
      <-> len [script_name; "latency.txt"] = 2
          /\ mixed_file (nth 1 [script_name; "latency.txt"] EmptyString)
             = None)
  /\ (fst (main [script_name; "latency.txt"] mixed_file (World [] []))
      = Raise IndexError
      <-> len [script_name; "latency.txt"] = 2
          /\ exists text,
               mixed_file (nth 1 [script_name; "latency.txt"] EmptyString)
               = Some text
               /\ valid_values (readlines text) = [])
  /\ (fst (main [script_name; "latency.txt"] mixed_file (World [] []))
      = Ok tt
      <-> len [script_name; "latency.txt"] = 2
          /\ exists text line,
               mixed_file (nth 1 [script_name; "latency.txt"] EmptyString)
               = Some text
               /\ In line (readlines text)
               /\ valid_line line = true).
Proof.
  apply (run_ends_by_cause [script_name; "latency.txt"] mixed_file).
  intros d Hd. vm_compute in Hd. injection Hd as <-.
  vm_compute. discriminate.
Defined.

(** ** White space and line terminators *)

Lemma lstrip_all_space (b : string) : all_space b = true -> lstrip b = EmptyString.
Proof.
  induction b as [|c r IH]; cbn [all_space lstrip]; [reflexivity|].
  intros H. apply andb_prop in H as [Hc Hr]. rewrite Hc. apply IH, Hr.
Qed.

Lemma rstrip_all_space (b : string) : all_space b = true -> rstrip b = EmptyString.
Proof.
  induction b as [|c r IH]; cbn [all_space rstrip]; [reflexivity|].
  intros H. apply andb_prop in H as [Hc Hr]. rewrite (IH Hr), Hc. reflexivity.
Qed.

Lemma lstrip_pad (a x : string) :
  all_space a = true -> lstrip (a ++ x) = lstrip x.
Proof.
  induction a as [|c r IH]; cbn [all_space String.append lstrip]; [reflexivity|].
  intros H. apply andb_prop in H as [Hc Hr]. rewrite Hc. apply IH, Hr.
Qed.

Lemma lstrip_app (x b : string) :
  lstrip (x ++ b)
  = match lstrip x with
    | EmptyString => lstrip b
    | y => (y ++ b)%string
    end.
Proof.
  induction x as [|c r IH]; cbn [String.append lstrip].
  - destruct (lstrip b); reflexivity.
  - destruct (isspace c); [exact IH|reflexivity].
Qed.

Lemma rstrip_pad (x b : string) :
  all_space b = true -> rstrip (x ++ b) = rstrip x.
Proof.
  intros Hb. induction x as [|c r IH]; cbn [String.append rstrip].
  - apply rstrip_all_space, Hb.
  - rewrite IH. reflexivity.
Qed.

(** [strip] undoes any padding with white space. *)
Lemma strip_padded (a x b : string) :
  all_space a = true -> all_space b = true ->
  strip (a ++ x ++ b) = strip x.
Proof.
  intros Ha Hb. unfold strip. rewrite (lstrip_pad a _ Ha), lstrip_app.
  destruct (lstrip x) as [|c y] eqn:E.
  - rewrite (lstrip_all_space b Hb). reflexivity.
  - apply rstrip_pad, Hb.
Qed.

Lemma strip_all_space (b : string) : all_space b = true -> strip b = EmptyString.
Proof. intros H. unfold strip. rewrite (lstrip_all_space b H). reflexivity. Qed.

Lemma valid_values_padded (lines lines' : list string) :
  Forall2 padded lines lines' -> valid_values lines' = valid_values lines.
Proof.
  intros H. apply valid_values_strip.
  induction H as [|l l' r r' (a & b & Ha & Hb & ->) _ IH]; [reflexivity|].
  cbn [map]. rewrite (strip_padded a l b Ha Hb), IH. reflexivity.
Qed.

(** X9 -- white space does not count: padding the lines of a file with
    white space leaves the parsed samples unchanged, and so does a line of
    white space only, inserted at any position. *)
Theorem whitespace_is_ignored (lines lines' : list string) (blank : string) :
  Forall2 padded lines lines' -> all_space blank = true ->
  parse_lines lines' = parse_lines lines
  /\ forall k, parse_lines (firstn k lines' ++ blank :: skipn k lines')
               = parse_lines lines.
Proof.
  intros Hpad Hblank. rewrite !parse_lines_spec.
  rewrite (valid_values_padded lines lines' Hpad). split; [reflexivity|].
  intros k. rewrite parse_lines_spec. f_equal.
  change (blank :: skipn k lines') with ([blank] ++ skipn k lines').
  rewrite !valid_values_app.
  assert (Hb : valid_values [blank] = []).
  { apply valid_values_invalid. unfold valid_line.
    rewrite (strip_all_space blank Hblank). reflexivity. }
  rewrite Hb. cbn [app]. rewrite <- valid_values_app, firstn_skipn.
  apply valid_values_padded, Hpad.
Qed.

Lemma whitespace_is_ignored_witness :
  parse_lines ["  12.5 "; "7"] = parse_lines ["12.5"; "7"]
  /\ forall k, parse_lines (firstn k ["  12.5 "; "7"] ++ "   "
                              :: skipn k ["  12.5 "; "7"])
               = parse_lines ["12.5"; "7"].
Proof.
  apply (whitespace_is_ignored ["12.5"; "7"] ["  12.5 "; "7"] "   ").
  - constructor.
    + exists "  ", " ". repeat split.
    + constructor; [|constructor].
      exists EmptyString, EmptyString. repeat split.
  - reflexivity.
Defined.

Lemma append_empty_r (s : string) : (s ++ EmptyString)%string = s.
Proof. induction s as [|c r IH]; cbn [String.append]; congruence. Qed.

Lemma plain_cons (c : ascii) (r : string) :
  plain (String c r) = true ->
  Ascii.eqb c LF = false /\ Ascii.eqb c CR = false /\ plain r = true.
Proof.
  cbn [plain]. intros H.
  apply andb_prop in H as [H Hr]. apply andb_prop in H as [H1 H2].
  apply negb_true_iff in H1, H2. auto.
Qed.

(** A run of ordinary characters joins the line that follows it. *)
Lemma readlines_plain (l rest : string) :
  plain l = true ->
  readlines (l ++ rest)
  = match readlines rest with
    | [] => match l with EmptyString => [] | _ => [l] end
    | x :: xs => (l ++ x)%string :: xs
    end.
Proof.
  induction l as [|c r IH]; intros Hl; cbn [String.append].
  - destruct (readlines rest); reflexivity.
  - apply plain_cons in Hl as (H1 & H2 & Hr).
    cbn [readlines]. rewrite H1, H2, (IH Hr).
    destruct (readlines rest); [destruct r|]; reflexivity.
Qed.

Lemma is_eol_cases (eol : string) :
  is_eol eol = true -> eol = eol_lf \/ eol = eol_crlf \/ eol = eol_cr.
Proof.
  unfold is_eol. intros H.
  apply orb_prop in H as [H|H]; [apply orb_prop in H as [H|H]|];
    apply String.eqb_eq in H; auto.
Qed.

Lemma text_with_start (lines : list string) (last : string) :
  forallb plain lines = true -> plain last = true ->
  starts_with_LF (text_with eol_cr lines last) = false.
Proof.
  intros Hl Hlast. destruct lines as [|l r]; cbn [text_with].
  - destruct last as [|c s]; [reflexivity|].
    apply plain_cons in Hlast as (H1 & _). exact H1.
  - cbn [forallb] in Hl. apply andb_prop in Hl as [Hp _].
    destruct l as [|c s]; [reflexivity|].
    apply plain_cons in Hp as (H1 & _). exact H1.
Qed.

(** Each of the three terminators ends a line, handed over as a line feed. *)
Lemma readlines_eol (eol rest : string) :
  is_eol eol = true ->
  (eol = eol_cr -> starts_with_LF rest = false) ->
  readlines (eol ++ rest) = eol_lf :: readlines rest.
Proof.
  intros He Hcr. destruct (is_eol_cases eol He) as [->|[->| ->]].
  - reflexivity.
  - reflexivity.
  - specialize (Hcr eq_refl). destruct rest as [|c r]; [reflexivity|].
    cbn [starts_with_LF] in Hcr.
    cbn [eol_cr String.append readlines].
    change (Ascii.eqb CR LF) with false. change (Ascii.eqb CR CR) with true.
    cbv iota. rewrite Hcr. reflexivity.
Qed.

(** The lines read from a text, whatever its terminator. *)
Lemma readlines_text_with (eol : string) (lines : list string)
      (last : string) :
  is_eol eol = true -> forallb plain lines = true -> plain last = true ->
  readlines (text_with eol lines last)
  = map (fun l => (l ++ eol_lf)%string) lines
    ++ match last with EmptyString => [] | _ => [last] end.
Proof.
  intros He Hl Hlast. induction lines as [|l r IH]; cbn [text_with map app].
  - rewrite <- (append_empty_r last) at 1.
    rewrite (readlines_plain last EmptyString Hlast). reflexivity.
  - cbn [forallb] in Hl. apply andb_prop in Hl as [Hp Hr].
    rewrite (readlines_plain l _ Hp).
    rewrite readlines_eol; [rewrite (IH Hr); reflexivity|exact He|].
    intros ->. apply text_with_start; assumption.
Qed.

(** X8 -- line terminators do not matter: a file whose lines end in LF,
    in CR LF or in CR, with or without a terminator after the last line,
    yields the samples of those lines. *)
Theorem line_endings_do_not_matter (eol : string) (lines : list string)
        (last : string) :
  is_eol eol = true -> forallb plain lines = true -> plain last = true ->
  parse_lines (readlines (text_with eol lines last))
  = parse_lines (lines ++ [last]).
Proof.
  intros He Hl Hlast.
  rewrite (readlines_text_with eol lines last He Hl Hlast).
  rewrite !parse_lines_spec, !valid_values_app. f_equal. f_equal.
  - apply valid_values_strip. rewrite map_map. apply map_ext.
    intros l. apply (strip_padded EmptyString l eol_lf); reflexivity.
  - destruct last; reflexivity.
Qed.

Lemma line_endings_do_not_matter_witness :
  parse_lines (readlines (text_with eol_crlf ["10"; "abc"; "20.5"] "30"))
  = parse_lines (["10"; "abc"; "20.5"] ++ ["30"]).
Proof.
  apply (line_endings_do_not_matter eol_crlf ["10"; "abc"; "20.5"] "30");
    reflexivity.
Defined.

(** ** Small samples *)

Lemma rank_saturates (p : float) (bound : nat) :
  forallb (fun n => match nearest_rank (Z.of_nat n) p with
                    | Some k => k =? Z.of_nat n - 1
                    | None => false
                    end) (seq 1 bound) = true ->
  forall n, (1 <= n <= bound)%nat ->
            nearest_rank (Z.of_nat n) p = Some (Z.of_nat n - 1).
Proof.
  intros H n Hn. rewrite forallb_forall in H.
  specialize (H n ltac:(apply in_seq; lia)).
  destruct (nearest_rank (Z.of_nat n) p) as [k|]; [|discriminate].
  apply Z.eqb_eq in H. congruence.
Qed.

(** When the rank is the last position, the value returned is a largest
    sample. *)
Lemma percentile_last (p : float) (data : list float) :
  data <> [] -> len data <= sys_maxsize -> is_fraction p = true ->
  numbers data ->
  nearest_rank (len data) p = Some (len data - 1) ->
  exists hi, fst (percentile p data) = Ok hi /\ In hi data
             /\ forall x, In x data -> float_le x hi = true.
Proof.
  intros Hne Hmax Hp Hnum Hrank.
  pose proof (len_pos data Hne) as Hpos.
  destruct (percentile_run p data Hmax Hp) as (f & Hf & Hk & Hrun).
  rewrite Hrank in Hk. injection Hk as Hk. rewrite <- Hk in Hrun.
  rewrite (getitem_in_range _ _ S754_nan) in Hrun
    by (rewrite len_list_sort; lia).
  rewrite Hrun. cbn [fst]. eexists. split; [reflexivity|].
  assert (Hs : numbers (list_sort data))
    by (apply (numbers_perm data); [apply list_sort_perm|exact Hnum]).
  pose proof (list_sort_ascending data Hnum) as Ha.
  pose proof (len_list_sort data) as Hl. unfold len in *.
  split.
  - apply (Permutation_in _ (Permutation_sym (list_sort_perm data))).
    apply nth_In. lia.
  - intros x Hx. apply (Permutation_in _ (list_sort_perm data)) in Hx.
    destruct (In_nth _ _ S754_nan Hx) as (j & Hj & <-).
    apply ascending_nth_mono; try assumption. lia.
Qed.

(** X11 -- with few samples the high percentiles are the maximum: P99 is
    a largest sample for up to 100 numbers, P95 for up to 20; one sample
    more and the rank read is the one before the last. *)
Theorem small_samples_report_the_maximum (data : list float) :
  data <> [] -> numbers data ->
  (len data <= 100 ->
   exists hi, fst (percentile p99 data) = Ok hi /\ In hi data
              /\ forall x, In x data -> float_le x hi = true)
  /\ (len data <= 20 ->
      exists hi, fst (percentile p95 data) = Ok hi /\ In hi data
                 /\ forall x, In x data -> float_le x hi = true)
  /\ nearest_rank 101 p99 = Some 99
  /\ nearest_rank 21 p95 = Some 19.
Proof.
  intros Hne Hnum.
  pose proof (len_pos data Hne) as Hpos.
  assert (Hlen : len data = Z.of_nat (List.length data)) by reflexivity.
  split; [|split; [|split; reflexivity]].
  - intros H. apply percentile_last; try assumption;
      [unfold sys_maxsize; lia|reflexivity|].
    rewrite Hlen.
    apply (rank_saturates p99 100); [vm_compute; reflexivity|lia].
  - intros H. apply percentile_last; try assumption;
      [unfold sys_maxsize; lia|reflexivity|].
    rewrite Hlen.
    apply (rank_saturates p95 20); [vm_compute; reflexivity|lia].
Qed.

Lemma small_samples_report_the_maximum_witness :
  (len [ms 4; ms 9; ms 1] <= 100 ->
   exists hi, fst (percentile p99 [ms 4; ms 9; ms 1]) = Ok hi
              /\ In hi [ms 4; ms 9; ms 1]
              /\ forall x, In x [ms 4; ms 9; ms 1] -> float_le x hi = true)
  /\ (len [ms 4; ms 9; ms 1] <= 20 ->
      exists hi, fst (percentile p95 [ms 4; ms 9; ms 1]) = Ok hi
                 /\ In hi [ms 4; ms 9; ms 1]
                 /\ forall x, In x [ms 4; ms 9; ms 1] ->
                              float_le x hi = true)
  /\ nearest_rank 101 p99 = Some 99
  /\ nearest_rank 21 p95 = Some 19.
Proof.
  apply (small_samples_report_the_maximum [ms 4; ms 9; ms 1]).
  - discriminate.
  - repeat constructor.
Defined.

(** ** Any [p] whatever *)

Lemma int_mul_float_raises (n : Z) (p : float) (e : exn) :
  int_mul_float n p = Raise e -> e = OverflowError.
Proof.
  unfold int_mul_float, float_of_int.
  destruct (binary_normalize prec emax n 0 false); congruence.
Qed.

Lemma int_of_float_raises (x : float) (e : exn) :
  int_of_float x = Raise e -> e = ValueError \/ e = OverflowError.
Proof. destruct x; cbn [int_of_float]; intros [= <-]; auto. Qed.

Lemma getitem_raises {A} (l : list A) (i : Z) (e : exn) :
  getitem l i = Raise e -> e = IndexError.
Proof.
  unfold getitem. destruct ((_ <? 0) || (_ <=? _)); [congruence|].
  destruct (nth_error l _); congruence.
Qed.

(** X12 -- whatever [p] is given, in range or not, NaN and infinities
    included, [percentile] either returns one of the samples or raises
    [ValueError] (the product is NaN), [OverflowError] (it is infinite, or
    the length does not fit a float) or [IndexError] (the index falls
    outside the list); it never returns a value that is not in the list. *)
Theorem percentile_returns_a_sample_or_raises (p : float)
        (data : list float) :
  match fst (percentile p data) with
  | Ok v => In v data
  | Raise e => e = ValueError \/ e = OverflowError \/ e = IndexError
  end.
Proof.
  unfold percentile, bind, modify, gets, lift.
  destruct (int_mul_float _ p) as [x|e] eqn:Hx; cbn [fst].
  - destruct (int_of_float x) as [k|e] eqn:Hk; cbn [fst].
    + destruct (getitem _ _) as [v|e] eqn:Hg; cbn [fst].
      * apply (Permutation_in _ (Permutation_sym (list_sort_perm data))).
        eapply getitem_In, Hg.
      * apply getitem_raises in Hg. auto.
    + apply int_of_float_raises in Hk. tauto.
  - apply int_mul_float_raises in Hx. auto.
Qed.

(** ** The rank in integer arithmetic *)

(** X7 -- what [int(len(data) * p)] computes, without floats: for fewer
    than [2^53] samples and a positive fraction [p = mp * 2^ep], the rank
    is the integer part of [n * mp * 2^ep] rounded to 53 significant bits
    (nearest, ties to even), clamped to [n - 1].  The rounding is part of
    the result: 100 samples at 0.95 give rank 95. *)
Theorem rank_in_integer_arithmetic (n : Z) (mp : positive) (ep : Z) :
  0 < n < 2 ^ 53 -> is_fraction (S754_finite false mp ep) = true ->
  nearest_rank n (S754_finite false mp ep)
  = Some (Z.min (rounded_int (n * Zpos mp) ep) (n - 1)).
Proof.
  intros Hn Hp.
  destruct (fraction_shape _ Hp) as [[s Hs]|(m & e & Hs & Dp & Ep & _)];
    [discriminate|].
  injection Hs as <- <-.
  destruct (int_of_product n mp ep) as (x & Hx & _ & Hf);
    [unfold sys_maxsize; lia|exact Dp|exact Ep|].
  unfold nearest_rank. rewrite Hx, Hf. cbn [option_map].
  rewrite rank_of_small by lia. reflexivity.
Qed.

Lemma rank_in_integer_arithmetic_witness :
  nearest_rank 100 (S754_finite false 8556839292003942 (-53))
  = Some (Z.min (rounded_int (100 * Zpos 8556839292003942) (-53)) (100 - 1)).
Proof.
  apply (rank_in_integer_arithmetic 100 8556839292003942 (-53)).
  - vm_compute. split; reflexivity.
  - reflexivity.
Defined.
